(** * Innovate-X registration site: the team verification workflow

    A shallow embedding of

    - [server/storage.ts] ([DatabaseStorage]: the team, member, audit-log
      and settings tables and the statements run against them),
    - [server/routes.ts] ([generateICS], [generateQRCode], [sendEmail] and
      the handler of [PATCH /api/admin/teams/:id/status]),
    - [client/src/lib/queryClient.ts] ([apiRequest] and its CSRF retry),

    and, beside the verification workflow, of the settings, export, login
    and registration routes with the storage calls and schemas they use and
    of the steps of the registration form, followed by their properties.
    The database
    is a record of tables, the handler is written in a state-and-exception
    monad over it, and everything outside the process (clock, QR service,
    mail gateway, the [ics] library) is an explicit environment. *)

From stdpp Require Import gmap strings pretty list fin_maps sorting.
From Stdlib Require Import ZArith Ascii QArith.
Close Scope Q_scope.

Open Scope Z_scope.

(** ** Strings of the source that need care *)

(** The double quote and the line feed, spelled by code point. *)
Definition dq : string := String "034"%char EmptyString.
Definition nl : string := String "010"%char EmptyString.

(** JavaScript truthiness of a string and of an optional string. *)
Definition truthy (s : string) : bool :=
  match s with EmptyString => false | String _ _ => true end.

Definition truthy_opt (o : option string) : bool :=
  match o with Some s => truthy s | None => false end.

(** [a || b] on a string operand. *)
Definition or_else (a b : string) : string := if truthy a then a else b.

(** [s] occurs inside [t]. *)
Definition occurs_in (s t : string) : Prop :=
  exists pre post : string, t = pre +:+ s +:+ post.


(** ** JSON.stringify on flat objects of strings and booleans *)

Module Json.

Inductive Value :=
| JString (s : string)
| JBool (b : bool).

Definition hex_digit (n : N) : ascii :=
  ascii_of_N (if (n <? 10)%N then 48 + n else 87 + n)%N.

(** The escape of one code unit inside a JSON string: the two-character
    escapes of ECMA-262 (QuoteJSONString), [\u00XX] for the other control
    characters, the unit itself otherwise. *)
Definition escape_char (c : ascii) : string :=
  let n := N_of_ascii c in
  if (n =? 34)%N then "\" +:+ dq
  else if (n =? 92)%N then "\\"
  else if (n =? 8)%N then "\b"
  else if (n =? 12)%N then "\f"
  else if (n =? 10)%N then "\n"
  else if (n =? 13)%N then "\r"
  else if (n =? 9)%N then "\t"
  else if (n <? 32)%N then
    "\u00" +:+ String (hex_digit (n / 16)) (String (hex_digit (n mod 16)) EmptyString)
  else String c EmptyString.

Fixpoint escape (s : string) : string :=
  match s with
  | EmptyString => EmptyString
  | String c rest => escape_char c +:+ escape rest
  end.

Definition quote (s : string) : string := dq +:+ escape s +:+ dq.

Definition stringify_value (v : Value) : string :=
  match v with
  | JString s => quote s
  | JBool true => "true"
  | JBool false => "false"
  end.

Definition stringify_member (kv : string * Value) : string :=
  quote kv.1 +:+ ":" +:+ stringify_value kv.2.

Fixpoint join_members (l : list (string * Value)) : string :=
  match l with
  | [] => EmptyString
  | [kv] => stringify_member kv
  | kv :: rest => stringify_member kv +:+ "," +:+ join_members rest
  end.

(** [JSON.stringify] of an object literal, in the order its keys are
    written. *)
Definition stringify (obj : list (string * Value)) : string :=
  "{" +:+ join_members obj +:+ "}".

End Json.

(** ** shared/schema.ts: the rows *)

Inductive Category := SOFTWARE | HARDWARE.
Inductive Status := PENDING | VERIFIED | REJECTED.

(** [z.enum(["VERIFIED", "REJECTED"])]: the statuses an administrator can
    ask for. *)
Inductive Decision := VERIFY | REJECT.

Definition decided (d : Decision) : Status :=
  match d with VERIFY => VERIFIED | REJECT => REJECTED end.

Definition category_text (c : Category) : string :=
  match c with SOFTWARE => "SOFTWARE" | HARDWARE => "HARDWARE" end.

Definition decision_text (d : Decision) : string :=
  match d with VERIFY => "VERIFIED" | REJECT => "REJECTED" end.

#[global] Instance Status_eq_dec : EqDecision Status.
Proof. solve_decision. Defined.

(** A row of [teams].  The primary key [id] is the key under which the row
    is stored, timestamps are milliseconds. *)
Record Team := {
  teamName : string;
  category : Category;
  projectTitle : string;
  projectSummary : string;
  collegeName : string;
  mentorName : option string;
  mentorEmail : option string;
  contactPhone : string;
  contactEmail : string;
  memberCount : Z;
  paymentProofUrl : string;
  extraDocUrl : option string;
  status : Status;
  verificationNote : option string;
  qrCodeUrl : option string;
  verifiedAt : option Z;
  verifiedBy : option string;
  createdAt : Z;
  updatedAt : Z
}.

Record Member := {
  teamId : string;
  fullName : string;
  email : string;
  year : string;
  department : string
}.

Record AuditLog := {
  log_teamId : string;
  action : string;
  performedBy : string;
  details : option string;
  log_createdAt : Z
}.

(** ** The outside world of the server *)

(** An attachment and a message as handed to [sendEmail]. *)
Record Attachment := { content : string; name : string }.

Record Email := {
  to : list string;
  subject : string;
  htmlContent : string;
  attachment : list Attachment
}.

(** The attributes given to [createEvent] of the [ics] library and what it
    answers. *)
Record EventAttributes := {
  start : list Z;
  end_ : list Z;
  title : string;
  description : string;
  location : string;
  ev_status : string;
  busyStatus : string;
  organizer : string * string
}.

Record ReturnObject := { error : option string; value : option string }.

(** What one request sees of its collaborators: the successive readings of
    [new Date()], the database clock behind [defaultNow()], whether
    [QRCode.toDataURL] followed by the Cloudinary upload yields a URL,
    whether Brevo answers [ok], the [ics] library's [createEvent] and
    [Buffer.from(_).toString("base64")]. *)
Record Env := {
  clock : nat -> Z;
  db_clock : Z;
  qr_service : string -> option string;
  brevo_ok : Email -> bool;
  createEvent : EventAttributes -> ReturnObject;
  base64 : string -> string
}.

(** The tables, and the calls that left the process: every payload passed
    to [generateQRCode] and every message posted to Brevo, oldest first. *)
Record World := {
  teams : gmap string Team;
  members : list Member;
  auditLogs : list AuditLog;
  eventSettings : gmap string string;
  qrRequests : list string;
  outbox : list Email
}.

(** ** Exceptions and state: the monad of the server code

    An [await]ed call either returns or throws; what it wrote before
    throwing stays written, there is no transaction around a request. *)

Inductive Exn :=
| ZodError
| JsError (msg : string).

Inductive Result (A : Type) :=
| Ok (a : A)
| Throw (e : Exn).
Arguments Ok {A} a.
Arguments Throw {A} e.

Definition M (A : Type) : Type := World -> World * Result A.

#[global] Instance M_ret : MRet M := fun A a w => (w, Ok a).

#[global] Instance M_bind : MBind M := fun A B k c w =>
  match c w with
  | (w', Ok a) => k a w'
  | (w', Throw e) => (w', Throw e)
  end.

Definition throw {A : Type} (e : Exn) : M A := fun w => (w, Throw e).

(** ** server/storage.ts *)

(** The object given to [.set(...)]: a column that is absent or
    [undefined] is left as it is by the update. *)
Record TeamUpdates := {
  set_status : option Status;
  set_verificationNote : option string;
  set_updatedAt : option Z;
  set_verifiedAt : option Z;
  set_verifiedBy : option string;
  set_qrCodeUrl : option string
}.

Definition overwrite {A : Type} (new : option A) (old : option A) : option A :=
  match new with Some a => Some a | None => old end.

Definition apply_set (u : TeamUpdates) (t : Team) : Team :=
  {| teamName := teamName t;
     category := category t;
     projectTitle := projectTitle t;
     projectSummary := projectSummary t;
     collegeName := collegeName t;
     mentorName := mentorName t;
     mentorEmail := mentorEmail t;
     contactPhone := contactPhone t;
     contactEmail := contactEmail t;
     memberCount := memberCount t;
     paymentProofUrl := paymentProofUrl t;
     extraDocUrl := extraDocUrl t;
     status := default (status t) (set_status u);
     verificationNote := overwrite (set_verificationNote u) (verificationNote t);
     qrCodeUrl := overwrite (set_qrCodeUrl u) (qrCodeUrl t);
     verifiedAt := overwrite (set_verifiedAt u) (verifiedAt t);
     verifiedBy := overwrite (set_verifiedBy u) (verifiedBy t);
     createdAt := createdAt t;
     updatedAt := default (updatedAt t) (set_updatedAt u) |}.

Definition with_teams (f : gmap string Team -> gmap string Team) (w : World) : World :=
  {| teams := f (teams w);
     members := members w;
     auditLogs := auditLogs w;
     eventSettings := eventSettings w;
     qrRequests := qrRequests w;
     outbox := outbox w |}.

Definition with_auditLogs (f : list AuditLog -> list AuditLog) (w : World) : World :=
  {| teams := teams w;
     members := members w;
     auditLogs := f (auditLogs w);
     eventSettings := eventSettings w;
     qrRequests := qrRequests w;
     outbox := outbox w |}.

Definition with_qrRequests (f : list string -> list string) (w : World) : World :=
  {| teams := teams w;
     members := members w;
     auditLogs := auditLogs w;
     eventSettings := eventSettings w;
     qrRequests := f (qrRequests w);
     outbox := outbox w |}.

Definition with_outbox (f : list Email -> list Email) (w : World) : World :=
  {| teams := teams w;
     members := members w;
     auditLogs := auditLogs w;
     eventSettings := eventSettings w;
     qrRequests := qrRequests w;
     outbox := f (outbox w) |}.

Module storage.

Definition getTeamById (id : string) : M (option Team) :=
  fun w => (w, Ok (teams w !! id)).

(** [update(teams).set(updates).where(eq(teams.id, id)).returning()]:
    the row under [id] is rewritten and returned; without such a row
    nothing is written and the first returned row is [undefined]. *)
Definition update_where_id (id : string) (u : TeamUpdates) : M (option Team) :=
  fun w =>
    match teams w !! id with
    | Some t => (with_teams (insert id (apply_set u t)) w, Ok (Some (apply_set u t)))
    | None => (w, Ok None)
    end.

(** The [updates] object of [updateTeamStatus]. *)
Definition statusUpdates (env : Env) (status : Decision) (note : option string)
    (verifiedBy : string) : TeamUpdates :=
  let updates :=
    {| set_status := Some (decided status);
       set_verificationNote := note;
       set_updatedAt := Some (clock env 0%nat);
       set_verifiedAt := None;
       set_verifiedBy := None;
       set_qrCodeUrl := None |} in
  match status with
  | VERIFY =>
      {| set_status := set_status updates;
         set_verificationNote := set_verificationNote updates;
         set_updatedAt := set_updatedAt updates;
         set_verifiedAt := Some (clock env 1%nat);
         set_verifiedBy := Some (or_else verifiedBy "admin");
         set_qrCodeUrl := set_qrCodeUrl updates |}
  | REJECT => updates
  end.

Definition updateTeamStatus (env : Env) (id : string) (status : Decision)
    (note : option string) (verifiedBy : string) : M (option Team) :=
  update_where_id id (statusUpdates env status note verifiedBy).

(** The object [{ qrCodeUrl }] of [updateTeamQrCode]. *)
Definition qrUpdates (qrCodeUrl : string) : TeamUpdates :=
  {| set_status := None;
     set_verificationNote := None;
     set_updatedAt := None;
     set_verifiedAt := None;
     set_verifiedBy := None;
     set_qrCodeUrl := Some qrCodeUrl |}.

Definition updateTeamQrCode (id : string) (qrCodeUrl : string) : M unit :=
  _ ← update_where_id id (qrUpdates qrCodeUrl);
  mret tt.

Definition getMembersByTeamId (id : string) : M (list Member) :=
  fun w => (w, Ok (filter (fun m => teamId m = id) (members w))).

Definition createAuditLog (env : Env) (id action performedBy : string)
    (details : option string) : M AuditLog :=
  fun w =>
    let log :=
      {| log_teamId := id;
         action := action;
         performedBy := performedBy;
         details := details;
         log_createdAt := db_clock env |} in
    (with_auditLogs (fun logs => logs ++ [log]) w, Ok log).

End storage.

(** ** server/routes.ts: the helpers *)

(** [sendEmail]: one POST to Brevo; an answer that is not [ok] (or a failed
    POST) is thrown as an error after the POST has been made. *)
Definition sendEmail (env : Env) (to : list string) (subject htmlContent : string)
    (attachments : option (list Attachment)) : M unit :=
  fun w =>
    let message :=
      {| to := to;
         subject := subject;
         htmlContent := htmlContent;
         attachment := default [] attachments |} in
    let w' := with_outbox (fun sent => sent ++ [message]) w in
    if brevo_ok env message then (w', Ok tt)
    else (w', Throw (JsError "Failed to send email")).

(** [generateQRCode]: render [data] and upload the image; the failure of
    either step is logged and thrown again. *)
Definition generateQRCode (env : Env) (data : string) : M string :=
  fun w =>
    let w' := with_qrRequests (fun asked => asked ++ [data]) w in
    match qr_service env data with
    | Some secure_url => (w', Ok secure_url)
    | None => (w', Throw (JsError "QR code generation error"))
    end.

(** The object literal given to [createEvent] in [generateICS]. *)
Definition icsAttributes (teamName projectTitle : string) : EventAttributes :=
  {| start := [2025; 11; 25; 9; 0];
     end_ := [2025; 11; 25; 17; 0];
     title := "Innovate-X 2025 - Project Expo";
     description :=
       "Team: " +:+ teamName +:+ nl +:+ "Project: " +:+ projectTitle +:+ nl +:+ nl
       +:+ "Please arrive 30 minutes early for check-in and setup.";
     location := "Main Auditorium, Your College";
     ev_status := "CONFIRMED";
     busyStatus := "BUSY";
     organizer := ("Innovate-X Team", "organizer@innovatex.com") |}.

Definition generateICS (env : Env) (teamName projectTitle : string) : string :=
  let event := createEvent env (icsAttributes teamName projectTitle) in
  match error event with
  | Some _ => EmptyString
  | None => or_else (default EmptyString (value event)) EmptyString
  end.

(** ** server/routes.ts: PATCH /api/admin/teams/:id/status *)

Section Routes.

Local Open Scope string_scope.

(** A template literal laid out as the source has it: every line starts
    on a new line under ten spaces of indentation, and the closing
    back-tick sits on a line of its own under eight. *)
Definition template (lines : list string) : string :=
  foldr (fun line rest => nl +:+ "          " +:+ line +:+ rest)
        (nl +:+ "        ") lines.

(** What the handler reads of a request once [requireAuth] and
    [csrfProtection] have let it through. *)
Record Request := {
  params_id : string;
  body_status : string;
  body_note : option string;
  session_adminEmail : string
}.

Record Response := {
  code : Z;
  json : list (string * Json.Value)
}.

(** [updateTeamStatusSchema.parse(req.body)]. *)
Definition updateTeamStatusSchema_parse (req : Request) : M (Decision * option string) :=
  if decide (body_status req = "VERIFIED") then mret (VERIFY, body_note req)
  else if decide (body_status req = "REJECTED") then mret (REJECT, body_note req)
  else throw ZodError.

(** The payload encoded in the QR image. *)
Definition qrData (id : string) (team : Team) : string :=
  Json.stringify
    [ ("teamId", Json.JString id);
      ("teamName", Json.JString (teamName team));
      ("category", Json.JString (category_text (category team)));
      ("verified", Json.JBool true) ].

Definition acceptanceHtml (team : Team) (qrCodeUrl : string) (note : option string)
    : string :=
  template
    [ "<h2>Congratulations! Your Team Has Been Verified 🎉</h2>";
      "<p>Dear Team " +:+ teamName team +:+ ",</p>";
      "<p>We're excited to inform you that your registration for Innovate-X 2025 has been verified!</p>";
      "<h3>Event Details:</h3>";
      "<p><strong>Date:</strong> November 25, 2025</p>";
      "<p><strong>Time:</strong> 9:00 AM - 5:00 PM</p>";
      "<p><strong>Venue:</strong> Main Auditorium, Your College</p>";
      "<h3>Your Team QR Code:</h3>";
      "<p>Please bring this QR code on the event day for check-in:</p>";
      "<img src=" +:+ dq +:+ qrCodeUrl +:+ dq +:+ " alt=" +:+ dq +:+ "Team QR Code" +:+ dq
        +:+ " style=" +:+ dq
        +:+ "width: 250px; height: 250px; border: 2px solid #00FF85; border-radius: 8px;"
        +:+ dq +:+ "/>";
      "<h3>What to Bring:</h3>";
      "<ul>";
      "  <li>Your project and required equipment</li>";
      "  <li>Team ID proof</li>";
      "  <li>This confirmation email and QR code</li>";
      "</ul>";
      match note with
      | Some n =>
          if truthy n then "<p><strong>Note from organizers:</strong> " +:+ n +:+ "</p>"
          else EmptyString
      | None => EmptyString
      end;
      "<p>We've also attached a calendar invite (.ics file) - add it to your calendar so you don't miss the event!</p>";
      "<p>See you at Innovate-X 2025!</p>";
      "<p>Best regards,<br/>Innovate-X Team</p>" ].

Definition rejectionHtml (team : Team) (note : option string) : string :=
  template
    [ "<h2>Innovate-X 2025 Registration Update</h2>";
      "<p>Dear Team " +:+ teamName team +:+ ",</p>";
      "<p>Thank you for your interest in Innovate-X 2025. Unfortunately, we are unable to accept your registration at this time.</p>";
      match note with
      | Some n =>
          if truthy n then "<p><strong>Reason:</strong> " +:+ n +:+ "</p>"
          else EmptyString
      | None => EmptyString
      end;
      "<p>If you believe this is an error or have questions, please contact us at organizer@innovatex.edu</p>";
      "<p>We appreciate your participation and hope to see you in future events.</p>";
      "<p>Best regards,<br/>Innovate-X Team</p>" ].

(** The body of the [try] block. *)
Definition patch_status_try (env : Env) (req : Request) : M Response :=
  let id := params_id req in
  '(status, note) ← updateTeamStatusSchema_parse req;
  team ← storage.getTeamById id;
  match team with
  | None => mret {| code := 404; json := [("error", Json.JString "Team not found")] |}
  | Some team =>
      updatedTeam ← storage.updateTeamStatus env id status note (session_adminEmail req);
      _ ← storage.createAuditLog env id
            (match status with VERIFY => "TEAM_VERIFIED" | REJECT => "TEAM_REJECTED" end)
            (session_adminEmail req) note;
      members ← storage.getMembersByTeamId id;
      _ ← match status with
          | VERIFY =>
              qrCodeUrl ← generateQRCode env (qrData id team);
              _ ← storage.updateTeamQrCode id qrCodeUrl;
              let icsContent := generateICS env (teamName team) (projectTitle team) in
              let icsBase64 := base64 env icsContent in
              let emailRecipients := map email members in
              sendEmail env emailRecipients "✅ Team Verified - Innovate-X 2025"
                (acceptanceHtml team qrCodeUrl note)
                (Some [ {| content := icsBase64; name := "innovate-x-2025.ics" |} ])
          | REJECT =>
              sendEmail env [contactEmail team] "Innovate-X 2025 Registration Update"
                (rejectionHtml team note) None
          end;
      mret {| code := 200;
              json := [("message", Json.JString "Team status updated successfully")] |}
  end.

(** The handler: the [try] block under its [catch]. *)
Definition patch_status (env : Env) (req : Request) (w : World) : World * Response :=
  match patch_status_try env req w with
  | (w', Ok res) => (w', res)
  | (w', Throw ZodError) =>
      (w', {| code := 400; json := [("error", Json.JString "Invalid input")] |})
  | (w', Throw (JsError _)) =>
      (w', {| code := 500; json := [("error", Json.JString "Failed to update team status")] |})
  end.

(** The operation the specification calls [decide]: the handler on a
    well-formed request of the acting administrator. *)
Definition decide_request (id : string) (d : Decision) (note : option string)
    (actingAdmin : string) : Request :=
  {| params_id := id;
     body_status := decision_text d;
     body_note := note;
     session_adminEmail := actingAdmin |}.

Definition decideTeam (env : Env) (id : string) (d : Decision) (note : option string)
    (actingAdmin : string) (w : World) : World * Response :=
  patch_status env (decide_request id d note actingAdmin) w.

End Routes.

(** ** client/src/lib/queryClient.ts *)

Module Client.

Local Open Scope string_scope.

(** The [data] argument when it is given: a [FormData], or an object
    literal, kept as the text [JSON.stringify] makes of it.  Both are
    truthy. *)
Inductive Data :=
| FormData (fields : string)
| Object (serialized : string).

(** Which [fetch] of [apiRequest] a call comes from: the request itself
    or the refresh of the CSRF token. *)
Inductive Site := request_site | csrf_site.

#[global] Instance Site_eq_dec : EqDecision Site.
Proof. solve_decision. Defined.

Record FetchCall := {
  site : Site;
  url : string;
  method : string;
  headers : list (string * string);
  body : option Data
}.

(** A [Response]: [json_csrfToken] is [None] when [res.json()] rejects or
    its result cannot be destructured, and otherwise the [csrfToken]
    property, [undefined] or not. *)
Record FetchResponse := {
  res_status : Z;
  statusText : string;
  text : string;
  json_csrfToken : option (option string)
}.

Definition ok (res : FetchResponse) : bool :=
  (200 <=? res_status res)%Z && (res_status res <=? 299)%Z.

(** The server and the network between: the answer to a call, given the
    calls made so far; [None] when [fetch] rejects. *)
Definition Network : Type := list FetchCall -> FetchCall -> option FetchResponse.

(** The module-level token and the calls made so far, oldest first. *)
Record ClientState := {
  csrfToken : option string;
  calls : list FetchCall
}.

Inductive Failure :=
| NetworkError
| HttpError (message : string).

Inductive Outcome :=
| Resolved (res : FetchResponse)
| Rejected (e : Failure).

Definition setCsrfToken (token : option string) (st : ClientState) : ClientState :=
  {| csrfToken := token; calls := calls st |}.

Definition getCsrfToken (st : ClientState) : option string := csrfToken st.

Definition fetch (net : Network) (call : FetchCall) (st : ClientState)
    : ClientState * option FetchResponse :=
  ({| csrfToken := csrfToken st; calls := calls st ++ [call] |}, net (calls st) call).

Definition throwIfResNotOk (res : FetchResponse) : option Failure :=
  if ok res then None
  else Some (HttpError (pretty (res_status res) +:+ ": "
                        +:+ or_else (text res) (statusText res))).

(** The last two statements of [apiRequest]. *)
Definition settle (res : FetchResponse) (st : ClientState) : ClientState * Outcome :=
  match throwIfResNotOk res with
  | Some e => (st, Rejected e)
  | None => (st, Resolved res)
  end.

Definition request_headers (method : string) (data : option Data) (st : ClientState)
    : list (string * string) :=
  (match data with
   | Some (Object _) => [("Content-Type", "application/json")]
   | _ => []
   end
   ++
   match csrfToken st with
   | Some token =>
       if truthy token && negb (String.eqb method "GET") then [("X-CSRF-Token", token)]
       else []
   | None => []
   end)%list.

(** The first [fetch] of [apiRequest]: the request, with the token the
    module holds at that time. *)
Definition request_call (method url : string) (data : option Data) (st : ClientState)
    : FetchCall :=
  {| site := request_site;
     url := url;
     method := method;
     headers := request_headers method data st;
     body := data |}.

(** The second: [fetch("/api/auth/csrf", { credentials: "include" })]. *)
Definition refresh_call : FetchCall :=
  {| site := csrf_site;
     url := "/api/auth/csrf";
     method := "GET";
     headers := [];
     body := None |}.

(** The body of [apiRequest], with the call to itself as [self].  The
    replay is returned without [await], so what it throws passes the
    [catch] and is the outcome; a refresh that rejects, or whose JSON
    cannot be read, is caught and the first answer is settled. *)
Definition apiRequest_body
    (self : string -> string -> option Data -> bool -> ClientState
            -> option (ClientState * Outcome))
    (net : Network) (method url : string) (data : option Data) (retryOn403 : bool)
    (st : ClientState) : option (ClientState * Outcome) :=
  match fetch net (request_call method url data st) st with
  | (st, None) => Some (st, Rejected NetworkError)
  | (st, Some res) =>
      if (res_status res =? 403)%Z && retryOn403 && negb (String.eqb method "GET") then
        match fetch net refresh_call st with
        | (st, Some csrfRes) =>
            if ok csrfRes then
              match json_csrfToken csrfRes with
              | Some newToken => self method url data false (setCsrfToken newToken st)
              | None => Some (settle res st)
              end
            else Some (settle res st)
        | (st, None) => Some (settle res st)
        end
      else Some (settle res st)
  end.

(** [apiRequest] unrolled [fuel] times; [None] when the unrolling is used
    up before the call returns. *)
Fixpoint apiRequest (fuel : nat) (net : Network) (method url : string)
    (data : option Data) (retryOn403 : bool) (st : ClientState)
    : option (ClientState * Outcome) :=
  match fuel with
  | O => None
  | S fuel => apiRequest_body (apiRequest fuel net) net method url data retryOn403 st
  end.

(** The calls of a run made from a given site. *)
Definition calls_from (s : Site) (l : list FetchCall) : list FetchCall :=
  filter (fun c => site c = s) l.

End Client.

(** ** What a decision leaves behind

    The worlds and answers the handler is shown to produce, written out
    once so that the statements below can name them. *)

Section Outcomes.

Local Open Scope string_scope.

Variable env : Env.
Variable id : string.
Variable note : option string.
Variable actingAdmin : string.

Definition okResponse : Response :=
  {| code := 200; json := [("message", Json.JString "Team status updated successfully")] |}.

Definition notFoundResponse : Response :=
  {| code := 404; json := [("error", Json.JString "Team not found")] |}.

Definition failedResponse : Response :=
  {| code := 500; json := [("error", Json.JString "Failed to update team status")] |}.

(** The answer after the last step, the mail [mail]. *)
Definition answer (mail : Email) : Response :=
  if brevo_ok env mail then okResponse else failedResponse.

Definition auditEntry (d : Decision) : AuditLog :=
  {| log_teamId := id;
     action := match d with VERIFY => "TEAM_VERIFIED" | REJECT => "TEAM_REJECTED" end;
     performedBy := actingAdmin;
     details := note;
     log_createdAt := db_clock env |}.

(** The row after [updateTeamStatus]. *)
Definition decidedTeam (d : Decision) (t : Team) : Team :=
  apply_set (storage.statusUpdates env d note actingAdmin) t.

(** The world once the status and its audit line are written. *)
Definition committed (d : Decision) (t : Team) (w : World) : World :=
  with_auditLogs (fun logs => (logs ++ [auditEntry d])%list)
    (with_teams (insert id (decidedTeam d t)) w).

(** The world once the QR payload of a verified team has been handed to
    [generateQRCode]. *)
Definition qrAsked (t : Team) (w : World) : World :=
  with_qrRequests (fun asked => (asked ++ [qrData id t])%list) (committed VERIFY t w).

Definition membersOf (w : World) : list Member :=
  filter (fun m => teamId m = id) (members w).

Definition acceptanceEmail (t : Team) (qrCodeUrl : string) (w : World) : Email :=
  {| to := map email (membersOf w);
     subject := "✅ Team Verified - Innovate-X 2025";
     htmlContent := acceptanceHtml t qrCodeUrl note;
     attachment :=
       [ {| content := base64 env (generateICS env (teamName t) (projectTitle t));
            name := "innovate-x-2025.ics" |} ] |}.

Definition rejectionEmail (t : Team) : Email :=
  {| to := [contactEmail t];
     subject := "Innovate-X 2025 Registration Update";
     htmlContent := rejectionHtml t note;
     attachment := [] |}.

(** The world after a verification whose QR image got the URL
    [qrCodeUrl]. *)
Definition verifiedWorld (t : Team) (qrCodeUrl : string) (w : World) : World :=
  with_outbox (fun sent => (sent ++ [acceptanceEmail t qrCodeUrl w])%list)
    (with_teams (insert id (apply_set (storage.qrUpdates qrCodeUrl) (decidedTeam VERIFY t)))
       (qrAsked t w)).

Definition rejectedWorld (t : Team) (w : World) : World :=
  with_outbox (fun sent => (sent ++ [rejectionEmail t])%list) (committed REJECT t w).

(** The QR service does not fail on the team's payload; a rejection does
    not ask it. *)
Definition qrReady (d : Decision) (t : Team) : Prop :=
  match d with
  | VERIFY => is_Some (qr_service env (qrData id t))
  | REJECT => True
  end.

End Outcomes.

(** The same world under other event settings. *)
Definition with_eventSettings (settings : gmap string string) (w : World) : World :=
  {| teams := teams w;
     members := members w;
     auditLogs := auditLogs w;
     eventSettings := settings;
     qrRequests := qrRequests w;
     outbox := outbox w |}.

(** ** A registration to run the workflow on *)

Module Sample.

Local Open Scope string_scope.

Definition alpha : Team :=
  {| teamName := "Alpha";
     category := SOFTWARE;
     projectTitle := "Line follower";
     projectSummary := "A robot that follows a line.";
     collegeName := "Your College";
     mentorName := None;
     mentorEmail := None;
     contactPhone := "9876543210";
     contactEmail := "lead@alpha.example";
     memberCount := 3;
     paymentProofUrl := "https://cdn.example/payment-proofs/alpha.png";
     extraDocUrl := None;
     status := PENDING;
     verificationNote := None;
     qrCodeUrl := None;
     verifiedAt := None;
     verifiedBy := None;
     createdAt := 1000;
     updatedAt := 1000 |}.

Definition member (team who : string) : Member :=
  {| teamId := team;
     fullName := who;
     email := who +:+ "@alpha.example";
     year := "2";
     department := "CSE" |}.

Definition settings : gmap string string :=
  {[ "EVENT_DATE" := "2026-01-10";
     "EVENT_TIME" := "10:30";
     "EVENT_VENUE" := "Hall B";
     "EVENT_ADDRESS" := "12 Station Road" ]}.

Definition world : World :=
  {| teams := {[ "t1" := alpha ]};
     members := [member "t1" "asha"; member "t2" "zoe"; member "t1" "ben"; member "t1" "chen"];
     auditLogs := [];
     eventSettings := settings;
     qrRequests := [];
     outbox := [] |}.

(** A stand-in for the [ics] library: it answers with the location and
    the start of the event it was asked for. *)
Definition render (e : EventAttributes) : ReturnObject :=
  {| error := None;
     value := Some ("LOCATION:" +:+ location e +:+ nl +:+ "DTSTART:"
                    +:+ foldr (fun n rest => pretty n +:+ "." +:+ rest) EmptyString (start e)) |}.

(** Collaborators that all succeed, and the same with Brevo down.  The
    base64 step is left out of the stand-in so that the calendar text can
    be read off the attachment. *)
Definition env : Env :=
  {| clock := fun n => 5000 + Z.of_nat n;
     db_clock := 5002;
     qr_service := fun _ => Some "https://cdn.example/qr-codes/1.png";
     brevo_ok := fun _ => true;
     createEvent := render;
     base64 := fun s => s |}.

Definition env_brevo_down : Env :=
  {| clock := clock env;
     db_clock := db_clock env;
     qr_service := qr_service env;
     brevo_ok := fun _ => false;
     createEvent := createEvent env;
     base64 := base64 env |}.


Definition admin : string := "root@innovatex.example".

(** A server whose CSRF check passes for the token "fresh" alone, and a
    server that refuses every mutating request. *)
Definition reply (status : Z) (token : option (option string)) : Client.FetchResponse :=
  {| Client.res_status := status;
     Client.statusText := if (status =? 200)%Z then "OK" else "Forbidden";
     Client.text := EmptyString;
     Client.json_csrfToken := token |}.

Definition strict_server : Client.Network :=
  fun _ call =>
    match Client.site call with
    | Client.csrf_site => Some (reply 200 (Some (Some "fresh")))
    | Client.request_site =>
        if bool_decide (("X-CSRF-Token", "fresh") ∈ Client.headers call)
        then Some (reply 200 None)
        else Some (reply 403 None)
    end.

Definition refusing_server : Client.Network :=
  fun _ call =>
    match Client.site call with
    | Client.csrf_site => Some (reply 200 (Some (Some "fresh")))
    | Client.request_site => Some (reply 403 None)
    end.

Definition stale_client : Client.ClientState :=
  {| Client.csrfToken := Some "stale"; Client.calls := [] |}.

End Sample.

(** ** Requests in a row *)

(** The status requests of a session served one after the other, each
    under the collaborators of its time. *)
Definition serve (requests : list (Env * Request)) (w : World) : World :=
  foldl (fun w er => (patch_status er.1 er.2 w).1) w requests.

(** The columns a registration fills in. *)
Definition registration (t : Team)
    : string * Category * string * string * string * option string * option string
      * string * string * Z * string * option string * Z :=
  (teamName t, category t, projectTitle t, projectSummary t, collegeName t,
   mentorName t, mentorEmail t, contactPhone t, contactEmail t, memberCount t,
   paymentProofUrl t, extraDocUrl t, createdAt t).

(** ** server/storage.ts and server/routes.ts: the event settings *)

Module Settings.

Local Open Scope string_scope.

(** A row of [event_settings]; [key] is unique in the table. *)
Record EventSetting := {
  id : string;
  key : string;
  value : string;
  updatedAt : Z
}.

Record InsertEventSetting := { ins_key : string; ins_value : string }.

(** What one call of [upsertSetting] takes from outside: the reading of
    [new Date()], the database clock and the id [gen_random_uuid()] would
    give a new row. *)
Record Stamp := { js_now : Z; db_now : Z; uuid : string }.

(** [getSetting]: the first row under the key, if any. *)
Definition getSetting (k : string) (table : list EventSetting) : option EventSetting :=
  head (filter (fun row => key row = k) table).

Definition set_value (v : string) (now : Z) (row : EventSetting) : EventSetting :=
  {| id := id row; key := key row; value := v; updatedAt := now |}.

(** [upsertSetting]: the rows under the key are rewritten when there is
    one, a row is added otherwise; the first row written is returned.  The
    list holds the rows of the table; the order in which a select without
    ORDER BY returns them is the database's, so only what does not depend
    on the order of the list is stated of it below. *)
Definition upsertSetting (stamp : Stamp) (insertSetting : InsertEventSetting)
    (table : list EventSetting) : list EventSetting * option EventSetting :=
  match getSetting (ins_key insertSetting) table with
  | Some existing =>
      let table' :=
        map (fun row =>
               if decide (key row = ins_key insertSetting)
               then set_value (ins_value insertSetting) (js_now stamp) row
               else row) table in
      (table', head (filter (fun row => key row = ins_key insertSetting) table'))
  | None =>
      let created :=
        {| id := uuid stamp;
           key := ins_key insertSetting;
           value := ins_value insertSetting;
           updatedAt := db_now stamp |} in
      ((table ++ [created])%list, Some created)
  end.

Definition getAllSettings (table : list EventSetting) : list EventSetting := table.

(** [settingsMap[k] = v] on the plain object [settingsMap]: under the key
    "__proto__" the assignment of a string sets nothing, and the object
    shows no such property; under any other key the property is set. *)
Definition assign (k v : string) (m : gmap string string) : gmap string string :=
  if decide (k = "__proto__") then m else <[k := v]> m.

(** [settings.forEach((setting) => { settingsMap[setting.key] = setting.value })],
    the answer of [GET /api/settings/public] and [GET /api/admin/settings]. *)
Definition settingsMap (settings : list EventSetting) : gmap string string :=
  foldl (fun m setting => assign (key setting) (value setting) m) ∅ settings.

Definition get_settings (table : list EventSetting) : gmap string string :=
  settingsMap (getAllSettings table).

(** A property of the posted object: a string, or a value of another
    type. *)
Inductive BodyValue :=
| BString (s : string)
| BOther.

(** The loop of [POST /api/admin/settings] over [Object.entries(updates)];
    the [n]-th entry is written under the stamp [stamps n]. *)
Fixpoint post_settings_from (n : nat) (stamps : nat -> Stamp)
    (entries : list (string * BodyValue)) (table : list EventSetting) : list EventSetting :=
  match entries with
  | [] => table
  | (k, BString v) :: rest =>
      post_settings_from (S n) stamps rest
        (upsertSetting (stamps n) {| ins_key := k; ins_value := v |} table).1
  | (_, BOther) :: rest => post_settings_from (S n) stamps rest table
  end.

Definition post_settings (stamps : nat -> Stamp) (entries : list (string * BodyValue))
    (table : list EventSetting) : list EventSetting :=
  post_settings_from 0 stamps entries table.

(** The map served after the post: the string entries assigned over the
    old map, in order. *)
Definition overlay (entries : list (string * BodyValue)) (m : gmap string string)
    : gmap string string :=
  foldl (fun m kv => match kv.2 with BString v => assign kv.1 v m | BOther => m end)
        m entries.

(** [POST /api/admin/upload-qr]: without a file 400; an upload that fails
    is a 500; otherwise the URL is stored under PAYMENT_QR_URL and
    returned. *)
Inductive UploadAnswer :=
| Uploaded (url : string)
| FileRequired
| UploadFailed.

Definition upload_qr (stamp : Stamp) (file : option string)
    (cloudinary : string -> string -> option string) (table : list EventSetting)
    : list EventSetting * UploadAnswer :=
  match file with
  | None => (table, FileRequired)
  | Some buffer =>
      match cloudinary buffer "payment-qr" with
      | None => (table, UploadFailed)
      | Some qrUrl =>
          ((upsertSetting stamp {| ins_key := "PAYMENT_QR_URL"; ins_value := qrUrl |}
              table).1,
           Uploaded qrUrl)
      end
  end.

End Settings.

(** What every status request keeps between the world [w] before and the
    world [w'] after: the member and settings tables, the set of teams and
    what each team registered, decisions once taken, and everything already
    logged, asked or sent. *)
Definition keeps (w w' : World) : Prop :=
  members w' = members w
  /\ eventSettings w' = eventSettings w
  /\ auditLogs w `prefix_of` auditLogs w'
  /\ outbox w `prefix_of` outbox w'
  /\ qrRequests w `prefix_of` qrRequests w'
  /\ forall id : string,
       match teams w !! id, teams w' !! id with
       | Some t, Some t' =>
           registration t' = registration t /\ (status t ≠ PENDING -> status t' ≠ PENDING)
       | None, None => True
       | _, _ => False
       end.

(** ** server/storage.ts and server/routes.ts: the list of teams and its export *)

Module CsvExport.

Local Open Scope string_scope.

(** [TeamWithMembers]: the row of a team, its id, and its members. *)
Record TeamWithMembers := {
  tw_id : string;
  tw_team : Team;
  tw_members : list Member
}.

(** The count a team registered is the number of its member rows. *)
Definition consistent (team : TeamWithMembers) : Prop :=
  memberCount (tw_team team) = Z.of_nat (length (tw_members team)).

(** [orderBy(desc(teams.createdAt))]: a row may come before another when it
    was not created earlier. *)
Definition newer_first (a b : string * Team) : Prop := createdAt b.2 <= createdAt a.2.

#[global] Instance newer_first_dec : RelDecision newer_first.
Proof. intros a b. unfold newer_first. apply _. Defined.

(** [getAllTeams]: the teams, newest first, each with the rows
    [getMembersByTeamId] finds for it. *)
Definition getAllTeams (w : World) : list TeamWithMembers :=
  let allTeams := merge_sort newer_first (map_to_list (teams w)) in
  map (fun team =>
         {| tw_id := team.1;
            tw_team := team.2;
            tw_members := filter (fun m => teamId m = team.1) (members w) |})
      allTeams.

Definition status_text (s : Status) : string :=
  match s with
  | PENDING => "PENDING"
  | VERIFIED => "VERIFIED"
  | REJECTED => "REJECTED"
  end.

(** [x || ''] on a nullable text column and [member?.field || '']. *)
Definition or_blank (o : option string) : string :=
  match o with Some s => or_else s EmptyString | None => EmptyString end.

(** The object written to the CSV stream for one member slot of a team. *)
Record CsvRow := {
  col_TeamID : string;
  col_TeamName : string;
  col_Category : string;
  col_ProjectTitle : string;
  col_ProjectSummary : string;
  col_CollegeName : string;
  col_MentorName : string;
  col_MentorEmail : string;
  col_ContactPhone : string;
  col_ContactEmail : string;
  col_MemberCount : Z;
  col_Status : string;
  col_VerificationNote : string;
  col_VerifiedAt : string;
  col_VerifiedBy : string;
  col_CreatedAt : string;
  col_MemberIndex : Z;
  col_MemberName : string;
  col_MemberEmail : string;
  col_MemberYear : string;
  col_MemberDepartment : string
}.

Section Rows.

(** [Date.prototype.toISOString]. *)
Variable toISOString : Z -> string.

Definition csv_row (team : TeamWithMembers) (i : nat) : CsvRow :=
  let member := tw_members team !! i in
  let t := tw_team team in
  {| col_TeamID := tw_id team;
     col_TeamName := teamName t;
     col_Category := category_text (category t);
     col_ProjectTitle := projectTitle t;
     col_ProjectSummary := projectSummary t;
     col_CollegeName := collegeName t;
     col_MentorName := or_blank (mentorName t);
     col_MentorEmail := or_blank (mentorEmail t);
     col_ContactPhone := contactPhone t;
     col_ContactEmail := contactEmail t;
     col_MemberCount := memberCount t;
     col_Status := status_text (status t);
     col_VerificationNote := or_blank (verificationNote t);
     col_VerifiedAt :=
       match verifiedAt t with Some at_ => toISOString at_ | None => EmptyString end;
     col_VerifiedBy := or_blank (verifiedBy t);
     col_CreatedAt := toISOString (createdAt t);
     col_MemberIndex := Z.of_nat i + 1;
     col_MemberName := or_blank (fullName <$> member);
     col_MemberEmail := or_blank (email <$> member);
     col_MemberYear := or_blank (year <$> member);
     col_MemberDepartment := or_blank (department <$> member) |}.

(** [for (let i = 0; i < team.memberCount; i++)]. *)
Definition team_rows (team : TeamWithMembers) : list CsvRow :=
  map (csv_row team) (seq 0 (Z.to_nat (memberCount (tw_team team)))).

(** The rows [GET /api/admin/export] writes, in order. *)
Definition export_rows (teams : list TeamWithMembers) : list CsvRow :=
  concat (map team_rows teams).

Definition export_csv (w : World) : list CsvRow := export_rows (getAllTeams w).

End Rows.

End CsvExport.

(** ** server/storage.ts and server/routes.ts: administrators and sessions *)

Module Auth.

Local Open Scope string_scope.

(** A row of [admins]; [email] is unique in the table. *)
Record Admin := {
  id : string;
  email : string;
  password : string;
  createdAt : Z
}.

Record InsertAdmin := { ins_email : string; ins_password : string }.

(** What the handlers keep in [req.session]. *)
Record Session := {
  adminId : option string;
  adminEmail : option string
}.

(** [bcrypt.hash(_, 10)], whose salt is the library's, and
    [bcrypt.compare]. *)
Record Bcrypt := {
  hash : string -> string;
  compare : string -> string -> bool
}.

Definition getAdminByEmail (e : string) (table : list Admin) : option Admin :=
  head (filter (fun admin => email admin = e) table).

(** [createAdmin]: the insert, refused by the unique index when the e-mail
    is taken. *)
Definition createAdmin (stamp : Settings.Stamp) (insertAdmin : InsertAdmin)
    (table : list Admin) : option (list Admin * Admin) :=
  if decide (ins_email insertAdmin ∈ map email table) then None
  else
    let admin :=
      {| id := Settings.uuid stamp;
         email := ins_email insertAdmin;
         password := ins_password insertAdmin;
         createdAt := Settings.db_now stamp |} in
    Some ((table ++ [admin])%list, admin).

Definition adminEmail0 : string := "Sm4686771@gmail.com".
Definition adminPassword0 : string := "SUHAS@ADMIN".

(** [initializeAdmin]; [None] when [createAdmin] throws. *)
Definition initializeAdmin (bcrypt : Bcrypt) (stamp : Settings.Stamp) (table : list Admin)
    : option (list Admin) :=
  match getAdminByEmail adminEmail0 table with
  | None =>
      let hashedPassword := hash bcrypt adminPassword0 in
      match createAdmin stamp
              {| ins_email := adminEmail0; ins_password := hashedPassword |} table with
      | Some (table', _) => Some table'
      | None => None
      end
  | Some _ => Some table
  end.

(** [requireAuth]: [true] when [next()] is called, [false] for the 401. *)
Definition requireAuth (session : Session) : bool := truthy_opt (adminId session).

Record LoginBody := { b_email : string; b_password : string }.

Inductive LoginAnswer :=
| LoginSuccessful (csrfToken : string)
| InvalidInput
| InvalidCredentials.

(** [loginSchema.parse]; [is_email] is the pattern of [z.string().email()]. *)
Definition loginSchema_parse (is_email : string -> bool) (body : LoginBody) : bool :=
  is_email (b_email body) && truthy (b_password body).

(** [POST /api/auth/login]; [csrfToken] is what [req.csrfToken()] gives
    once the session is set. *)
Definition login (bcrypt : Bcrypt) (is_email : string -> bool) (csrfToken : string)
    (body : LoginBody) (session : Session) (table : list Admin)
    : Session * LoginAnswer :=
  if loginSchema_parse is_email body then
    match getAdminByEmail (b_email body) table with
    | None => (session, InvalidCredentials)
    | Some admin =>
        if compare bcrypt (b_password body) (password admin) then
          ({| adminId := Some (id admin); adminEmail := Some (email admin) |},
           LoginSuccessful csrfToken)
        else (session, InvalidCredentials)
    end
  else (session, InvalidInput).

End Auth.

(** ** Rows to run the other routes on *)

Module Fixtures.

Local Open Scope string_scope.

Definition stamp (n : nat) : Settings.Stamp :=
  {| Settings.js_now := 7000 + Z.of_nat n;
     Settings.db_now := 7000 + Z.of_nat n;
     Settings.uuid := "setting-" +:+ pretty n |}.

Definition settings_table : list Settings.EventSetting :=
  [ {| Settings.id := "s1"; Settings.key := "EVENT_DATE";
       Settings.value := "2026-01-10"; Settings.updatedAt := 100 |};
    {| Settings.id := "s2"; Settings.key := "EVENT_VENUE";
       Settings.value := "Hall B"; Settings.updatedAt := 100 |} ].

(** A stand-in for bcrypt: the hash is the password behind a fixed
    prefix. *)
Definition bcrypt : Auth.Bcrypt :=
  {| Auth.hash := fun p => "$2a$10$" +:+ p;
     Auth.compare := fun p hashed => String.eqb hashed ("$2a$10$" +:+ p) |}.

End Fixtures.

(** ** shared/schema.ts and server/routes.ts: POST /api/register *)

Module Register.

Local Open Scope string_scope.

(** [InsertMember] and [RegistrationInput]: the posted [data] once
    [JSON.parse] has read it, with its properties of the types the schema
    asks for.  A string holds the UTF-8 bytes of its text.  [memberCount]
    is a JSON number, the rational it is: [z.number()] does not ask for an
    integer. *)
Record InsertMember := {
  im_fullName : string;
  im_email : string;
  im_year : string;
  im_department : string
}.

Record RegistrationInput := {
  r_teamName : string;
  r_category : Category;
  r_projectTitle : string;
  r_projectSummary : string;
  r_collegeName : string;
  r_mentorName : option string;
  r_mentorEmail : option string;
  r_contactPhone : string;
  r_contactEmail : string;
  r_memberCount : Q;
  r_paymentProofUrl : string;
  r_extraDocUrl : option string;
  r_members : list InsertMember
}.

(** The request as multer leaves it: the buffers of the uploaded files
    under each field, [data] ([None] when [JSON.parse] throws) and the
    captcha token. *)
Record RegisterRequest := {
  files_paymentFile : list string;
  files_extraFile : list string;
  body_data : option RegistrationInput;
  body_captchaToken : string
}.

(** The collaborators of a registration: hCaptcha's verdict ([false] also
    when the check cannot be made), Cloudinary's URL for a buffer and a
    folder ([None] when the upload fails), the id [gen_random_uuid()]
    gives the team, the pattern of [z.string().email()], and the clock and
    mail gateway of the server. *)
Record RegisterEnv := {
  verifyHCaptcha : string -> bool;
  uploadToCloudinary : string -> string -> option string;
  gen_random_uuid : string;
  is_email : string -> bool;
  server : Env
}.

Inductive RegisterAnswer :=
| Registered (teamId : string)
| ValidationFailed
| CaptchaFailed
| PaymentProofRequired
| RegistrationFailed.

Definition is_digit (c : ascii) : bool :=
  (48 <=? N_of_ascii c)%N && (N_of_ascii c <=? 57)%N.

Fixpoint all_digits (s : string) : bool :=
  match s with
  | EmptyString => true
  | String c rest => is_digit c && all_digits rest
  end.

(** [s.length]: the UTF-16 code units of the text.  A byte that continues
    a character counts for nothing, the first byte of a character of up to
    three bytes for one unit, and the first of four bytes for the two units
    of a surrogate pair. *)
Definition code_units (c : ascii) : nat :=
  if (N_of_ascii c <? 128)%N then 1%nat
  else if (N_of_ascii c <? 192)%N then 0%nat
  else if (N_of_ascii c <? 240)%N then 1%nat
  else 2%nat.

Fixpoint js_length (s : string) : nat :=
  match s with
  | EmptyString => 0%nat
  | String c rest => (code_units c + js_length rest)%nat
  end.

(** [z.string().min(n)] and [.max(n)], which compare [s.length]. *)
Definition min_length (n : nat) (s : string) : bool := (n <=? js_length s)%nat.
Definition max_length (n : nat) (s : string) : bool := (js_length s <=? n)%nat.

(** The integer a number is, if it is one. *)
Definition whole (q : Q) : option Z :=
  if (Qnum q mod Z.pos (Qden q) =? 0)%Z then Some (Qnum q / Z.pos (Qden q))%Z else None.

Definition insertMemberSchema_ok (email_ok : string -> bool) (m : InsertMember) : bool :=
  min_length 2 (im_fullName m)
  && email_ok (im_email m)
  && min_length 1 (im_year m)
  && min_length 1 (im_department m).

(** [registrationSchema.parse(data)] succeeds. *)
Definition registrationSchema_ok (email_ok : string -> bool) (data : RegistrationInput)
    : bool :=
  min_length 2 (r_teamName data)
  && min_length 5 (r_projectTitle data)
  && (min_length 100 (r_projectSummary data) && max_length 1000 (r_projectSummary data))
  && min_length 2 (r_collegeName data)
  && ((String.length (r_contactPhone data) =? 10)%nat && all_digits (r_contactPhone data))
  && email_ok (r_contactEmail data)
  && (Qle_bool (2 # 1)%Q (r_memberCount data) && Qle_bool (r_memberCount data) (4 # 1)%Q)
  && ((2 <=? length (r_members data))%nat && (length (r_members data) <=? 4)%nat)
  && forallb (insertMemberSchema_ok email_ok) (r_members data).

(** The row [createTeam] inserts for
    [{...validatedData, paymentProofUrl, extraDocUrl}] when the member
    count is the integer [count]: the columns the schema leaves out get
    their defaults. *)
Definition newTeam (renv : RegisterEnv) (validatedData : RegistrationInput) (count : Z)
    (paymentProofUrl : string) (extraDocUrl : option string) : Team :=
  {| teamName := r_teamName validatedData;
     category := r_category validatedData;
     projectTitle := r_projectTitle validatedData;
     projectSummary := r_projectSummary validatedData;
     collegeName := r_collegeName validatedData;
     mentorName := r_mentorName validatedData;
     mentorEmail := r_mentorEmail validatedData;
     contactPhone := r_contactPhone validatedData;
     contactEmail := r_contactEmail validatedData;
     memberCount := count;
     paymentProofUrl := paymentProofUrl;
     extraDocUrl := extraDocUrl;
     status := PENDING;
     verificationNote := None;
     qrCodeUrl := None;
     verifiedAt := None;
     verifiedBy := None;
     createdAt := db_clock (server renv);
     updatedAt := db_clock (server renv) |}.

(** [createTeam]; the column [member_count] is an integer and the
    database refuses any other number; an id already in the table violates
    the primary key. *)
Definition createTeam (renv : RegisterEnv) (validatedData : RegistrationInput)
    (paymentProofUrl : string) (extraDocUrl : option string) : M (string * Team) :=
  fun w =>
    let id := gen_random_uuid renv in
    match whole (r_memberCount validatedData) with
    | None => (w, Throw (JsError "invalid input syntax for type integer"))
    | Some count =>
        let team := newTeam renv validatedData count paymentProofUrl extraDocUrl in
        match teams w !! id with
        | Some _ => (w, Throw (JsError "duplicate key value violates unique constraint"))
        | None => (with_teams (insert id team) w, Ok (id, team))
        end
    end.

Definition member_row (id : string) (m : InsertMember) : Member :=
  {| teamId := id;
     fullName := im_fullName m;
     email := im_email m;
     year := im_year m;
     department := im_department m |}.

(** [createMembers]. *)
Definition createMembers (id : string) (insertMembers : list InsertMember)
    : M (list Member) :=
  fun w =>
    let membersWithTeamId := map (member_row id) insertMembers in
    ({| teams := teams w;
        members := (members w ++ membersWithTeamId)%list;
        auditLogs := auditLogs w;
        eventSettings := eventSettings w;
        qrRequests := qrRequests w;
        outbox := outbox w |},
     Ok membersWithTeamId).

Definition upload (renv : RegisterEnv) (buffer folder : string) : M string :=
  match uploadToCloudinary renv buffer folder with
  | Some secure_url => mret secure_url
  | None => throw (JsError "upload failed")
  end.

Definition organizerEmail : string := "Sm4686771@gmail.com".

(** The alert mailed to the organizer. *)
Definition emailHtml (team : Team) (paymentProofUrl : string) (extraDocUrl : option string)
    : string :=
  template
    [ "<h2>New Team Registration - Innovate-X 2025</h2>";
      "<p><strong>Team Name:</strong> " +:+ teamName team +:+ "</p>";
      "<p><strong>Category:</strong> " +:+ category_text (category team) +:+ "</p>";
      "<p><strong>Project:</strong> " +:+ projectTitle team +:+ "</p>";
      "<p><strong>College:</strong> " +:+ collegeName team +:+ "</p>";
      "<p><strong>Contact:</strong> " +:+ contactEmail team +:+ " | "
        +:+ contactPhone team +:+ "</p>";
      "<p><strong>Members:</strong> " +:+ pretty (memberCount team) +:+ "</p>";
      "<hr/>";
      "<p><a href=" +:+ dq +:+ paymentProofUrl +:+ dq +:+ " target=" +:+ dq +:+ "_blank"
        +:+ dq +:+ ">View Payment Proof</a></p>";
      match extraDocUrl with
      | Some url =>
          if truthy url
          then "<p><a href=" +:+ dq +:+ url +:+ dq +:+ " target=" +:+ dq +:+ "_blank"
               +:+ dq +:+ ">View Supporting Document</a></p>"
          else EmptyString
      | None => EmptyString
      end;
      "<p>Please review and verify this registration in the admin dashboard.</p>" ].

(** The body of the [try] block. *)
Definition register_try (renv : RegisterEnv) (req : RegisterRequest) : M RegisterAnswer :=
  data ← match body_data req with
         | Some data => mret data
         | None => throw (JsError "Unexpected token in JSON")
         end;
  validatedData ← (if registrationSchema_ok (is_email renv) data then mret data
                   else throw ZodError);
  if negb (verifyHCaptcha renv (body_captchaToken req)) then mret CaptchaFailed
  else
    match files_paymentFile req with
    | [] => mret PaymentProofRequired
    | paymentFile :: _ =>
        paymentProofUrl ← upload renv paymentFile "payment-proofs";
        extraDocUrl ← match files_extraFile req with
                      | [] => mret None
                      | extraFile :: _ =>
                          url ← upload renv extraFile "extra-docs";
                          mret (Some url)
                      end;
        team ← createTeam renv validatedData paymentProofUrl extraDocUrl;
        _ ← createMembers team.1 (r_members validatedData);
        _ ← storage.createAuditLog (server renv) team.1 "TEAM_REGISTERED" "system"
              (Some "Team registered via website");
        _ ← sendEmail (server renv) [organizerEmail] "New Team Registration - Innovate-X"
              (emailHtml team.2 paymentProofUrl extraDocUrl) None;
        mret (Registered team.1)
    end.

(** The handler: the [try] block under its [catch]. *)
Definition register (renv : RegisterEnv) (req : RegisterRequest) (w : World)
    : World * RegisterAnswer :=
  match register_try renv req w with
  | (w', Ok answer) => (w', answer)
  | (w', Throw ZodError) => (w', ValidationFailed)
  | (w', Throw (JsError _)) => (w', RegistrationFailed)
  end.

(** The mail and the world a registration that got through leaves. *)
Definition registrationMail (renv : RegisterEnv) (data : RegistrationInput) (count : Z)
    (paymentProofUrl : string) (extraDocUrl : option string) : Email :=
  {| to := [organizerEmail];
     subject := "New Team Registration - Innovate-X";
     htmlContent :=
       emailHtml (newTeam renv data count paymentProofUrl extraDocUrl)
         paymentProofUrl extraDocUrl;
     attachment := [] |}.

Definition registeredWorld (renv : RegisterEnv) (data : RegistrationInput) (count : Z)
    (paymentProofUrl : string) (extraDocUrl : option string) (w : World) : World :=
  {| teams :=
       <[gen_random_uuid renv := newTeam renv data count paymentProofUrl extraDocUrl]>
         (teams w);
     members := (members w ++ map (member_row (gen_random_uuid renv)) (r_members data))%list;
     auditLogs :=
       (auditLogs w ++
        [ {| log_teamId := gen_random_uuid renv;
             action := "TEAM_REGISTERED";
             performedBy := "system";
             details := Some "Team registered via website";
             log_createdAt := db_clock (server renv) |} ])%list;
     eventSettings := eventSettings w;
     qrRequests := qrRequests w;
     outbox :=
       (outbox w ++ [registrationMail renv data count paymentProofUrl extraDocUrl])%list |}.

(** The document uploaded with a registration, if a file came with it. *)
Definition extraUpload (renv : RegisterEnv) (req : RegisterRequest)
    : option (option string) :=
  match files_extraFile req with
  | [] => Some None
  | extraFile :: _ =>
      match uploadToCloudinary renv extraFile "extra-docs" with
      | Some url => Some (Some url)
      | None => None
      end
  end.

End Register.

(** ** A registration to post *)

Module Posted.

Local Open Scope string_scope.

Definition member (who : string) : Register.InsertMember :=
  {| Register.im_fullName := who;
     Register.im_email := who +:+ "@beta.example";
     Register.im_year := "3";
     Register.im_department := "ECE" |}.

Definition data : Register.RegistrationInput :=
  {| Register.r_teamName := "Beta";
     Register.r_category := HARDWARE;
     Register.r_projectTitle := "Solar tracker";
     Register.r_projectSummary :=
       "A two-axis tracker that keeps a small solar panel facing the sun through the day, "
       +:+ "built from two servos, four light sensors and a microcontroller.";
     Register.r_collegeName := "Your College";
     Register.r_mentorName := None;
     Register.r_mentorEmail := None;
     Register.r_contactPhone := "9123456780";
     Register.r_contactEmail := "lead@beta.example";
     Register.r_memberCount := (2 # 1)%Q;
     Register.r_paymentProofUrl := "placeholder";
     Register.r_extraDocUrl := Some "https://elsewhere.example/doc.pdf";
     Register.r_members := [member "dana"; member "eli"] |}.

(** The same registration with two members and a half. *)
Definition fractional : Register.RegistrationInput :=
  {| Register.r_teamName := Register.r_teamName data;
     Register.r_category := Register.r_category data;
     Register.r_projectTitle := Register.r_projectTitle data;
     Register.r_projectSummary := Register.r_projectSummary data;
     Register.r_collegeName := Register.r_collegeName data;
     Register.r_mentorName := Register.r_mentorName data;
     Register.r_mentorEmail := Register.r_mentorEmail data;
     Register.r_contactPhone := Register.r_contactPhone data;
     Register.r_contactEmail := Register.r_contactEmail data;
     Register.r_memberCount := (5 # 2)%Q;
     Register.r_paymentProofUrl := Register.r_paymentProofUrl data;
     Register.r_extraDocUrl := Register.r_extraDocUrl data;
     Register.r_members := Register.r_members data |}.

Definition request : Register.RegisterRequest :=
  {| Register.files_paymentFile := ["payment-bytes"];
     Register.files_extraFile := [];
     Register.body_data := Some data;
     Register.body_captchaToken := "captcha-token" |}.

Definition renv : Register.RegisterEnv :=
  {| Register.verifyHCaptcha := fun _ => true;
     Register.uploadToCloudinary :=
       fun _ folder => Some ("https://cdn.example/innovate-x/" +:+ folder +:+ "/1.png");
     Register.gen_random_uuid := "t2";
     Register.is_email := fun _ => true;
     Register.server := Sample.env |}.

(** The sample world without the member row of a team that is not there. *)
Definition world : World :=
  {| teams := teams Sample.world;
     members := [Sample.member "t1" "asha"; Sample.member "t1" "ben";
                 Sample.member "t1" "chen"];
     auditLogs := [];
     eventSettings := eventSettings Sample.world;
     qrRequests := [];
     outbox := [] |}.

End Posted.

(** ** Reading back an escaped character *)

(** The value of a hexadecimal digit. *)
Definition hex_value (c : ascii) : option N :=
  let n := N_of_ascii c in
  if (48 <=? n)%N && (n <=? 57)%N then Some (n - 48)%N
  else if (97 <=? n)%N && (n <=? 102)%N then Some (n - 87)%N
  else if (65 <=? n)%N && (n <=? 70)%N then Some (n - 55)%N
  else None.

(** What a JSON reader takes off the front of the inside of a string
    literal: one character, plain or escaped, and the rest; nothing at the
    closing quote, at a raw control character or at a malformed escape.
    Escapes above code 255 are outside the strings modelled here. *)
Definition unescape_head (s : string) : option (ascii * string) :=
  match s with
  | EmptyString => None
  | String c rest =>
      let n := N_of_ascii c in
      if (n =? 92)%N then
        match rest with
        | EmptyString => None
        | String e rest =>
            let k := N_of_ascii e in
            if (k =? 34)%N then Some (e, rest)
            else if (k =? 92)%N then Some (e, rest)
            else if (k =? 47)%N then Some (e, rest)
            else if (k =? 98)%N then Some (ascii_of_N 8, rest)
            else if (k =? 102)%N then Some (ascii_of_N 12, rest)
            else if (k =? 110)%N then Some (ascii_of_N 10, rest)
            else if (k =? 114)%N then Some (ascii_of_N 13, rest)
            else if (k =? 116)%N then Some (ascii_of_N 9, rest)
            else if (k =? 117)%N then
              match rest with
              | String h3 (String h2 (String h1 (String h0 rest))) =>
                  match hex_value h3, hex_value h2, hex_value h1, hex_value h0 with
                  | Some 0%N, Some 0%N, Some hi, Some lo =>
                      Some (ascii_of_N (16 * hi + lo), rest)
                  | _, _, _, _ => None
                  end
              | _ => None
              end
            else None
        end
      else if (n =? 34)%N || (n <? 32)%N then None
      else Some (c, rest)
  end.

(** ** client/src/pages/Register.tsx: the steps and the member rows of the form *)

Module Wizard.

Local Open Scope string_scope.

(** [STEPS.length]. *)
Definition steps : Z := 4.

(** [nextStep] once [form.trigger] has answered, and [prevStep]. *)
Inductive Action :=
| Next (isValid : bool)
| Prev.

Definition act (currentStep : Z) (a : Action) : Z :=
  match a with
  | Next true => Z.min (currentStep + 1) (steps - 1)
  | Next false => currentStep
  | Prev => Z.max (currentStep - 1) 0
  end.

#[global] Instance Action_eq_dec : EqDecision Action.
Proof. solve_decision. Defined.

(** The number of times the form moved on because a step was valid. *)
Definition valid_nexts (actions : list Action) : Z :=
  Z.of_nat (length (filter (fun a => a = Next true) actions)).

Definition blank : Register.InsertMember :=
  {| Register.im_fullName := EmptyString;
     Register.im_email := EmptyString;
     Register.im_year := EmptyString;
     Register.im_department := EmptyString |}.

(** [current.slice(0, end)]: a negative [end] counts from the end of the
    array. *)
Definition slice0 {A : Type} (stop : Z) (current : list A) : list A :=
  if (stop <? 0)%Z then take (Z.to_nat (Z.of_nat (length current) + stop)) current
  else take (Z.to_nat stop) current.

(** The effect run when [memberCount] changes: the member rows of the
    form are padded with blank rows or cut down to the count. *)
Definition syncMembers (current : list Register.InsertMember) (memberCount : Z)
    : list Register.InsertMember :=
  if (Z.of_nat (length current) <? memberCount)%Z then
    (current ++ replicate (Z.to_nat (memberCount - Z.of_nat (length current))) blank)%list
  else if (memberCount <? Z.of_nat (length current))%Z then slice0 memberCount current
  else current.

End Wizard.

(** * Properties *)

(** ** Running the monad *)

Lemma bind_run {A B : Type} (c : M A) (k : A -> M B) (w : World) :
  (c ≫= k) w =
  match c w with
  | (w', Ok a) => k a w'
  | (w', Throw e) => (w', Throw e)
  end.
Proof. reflexivity. Qed.

Lemma ret_run {A : Type} (a : A) (w : World) : (mret a : M A) w = (w, Ok a).
Proof. reflexivity. Qed.

(** One step of a run: expose the first call of a sequence. *)
Ltac step := rewrite ?bind_run, ?ret_run; cbv beta iota zeta.

(** ** The storage calls *)

Lemma parse_decide_request (id : string) (d : Decision) (note : option string)
    (actingAdmin : string) (w : World) :
  updateTeamStatusSchema_parse (decide_request id d note actingAdmin) w = (w, Ok (d, note)).
Proof. destruct d; reflexivity. Qed.

Lemma parse_rejects_other_status (req : Request) (w : World) :
  body_status req ≠ "VERIFIED"%string -> body_status req ≠ "REJECTED"%string ->
  forall env : Env, patch_status env req w = (w, {| code := 400; json := [("error"%string, Json.JString "Invalid input")] |}).
Proof.
  intros Hv Hr env. unfold patch_status, patch_status_try. rewrite bind_run.
  unfold updateTeamStatusSchema_parse. rewrite !decide_False by done. reflexivity.
Qed.

Lemma update_where_id_some (id : string) (u : TeamUpdates) (w : World) (t : Team) :
  teams w !! id = Some t ->
  storage.update_where_id id u w
  = (with_teams (insert id (apply_set u t)) w, Ok (Some (apply_set u t))).
Proof. intros H. unfold storage.update_where_id. by rewrite H. Qed.

Lemma update_where_id_none (id : string) (u : TeamUpdates) (w : World) :
  teams w !! id = None -> storage.update_where_id id u w = (w, Ok None).
Proof. intros H. unfold storage.update_where_id. by rewrite H. Qed.

Lemma updateTeamQrCode_some (id url : string) (w : World) (t : Team) :
  teams w !! id = Some t ->
  storage.updateTeamQrCode id url w
  = (with_teams (insert id (apply_set (storage.qrUpdates url) t)) w, Ok tt).
Proof.
  intros H. unfold storage.updateTeamQrCode. step.
  by rewrite (update_where_id_some _ _ _ _ H).
Qed.

(** ** The runs of the handler *)

Section Runs.

Variable env : Env.
Variable id : string.
Variable note : option string.
Variable actingAdmin : string.
Variable w : World.

Lemma decide_missing_run (d : Decision) :
  teams w !! id = None ->
  decideTeam env id d note actingAdmin w = (w, notFoundResponse).
Proof.
  intros H. unfold decideTeam, patch_status, patch_status_try.
  rewrite bind_run, parse_decide_request. cbv beta iota zeta.
  cbn [params_id decide_request]. rewrite bind_run.
  unfold storage.getTeamById. by rewrite H.
Qed.

(** The common prefix of every decision on a team that exists: the status
    write, the audit line, the read of the members. *)
Lemma decide_prefix (d : Decision) (t : Team) :
  teams w !! id = Some t ->
  patch_status_try env (decide_request id d note actingAdmin) w
  = match
      match d with
      | VERIFY =>
          (qrCodeUrl ← generateQRCode env (qrData id t);
           _ ← storage.updateTeamQrCode id qrCodeUrl;
           sendEmail env (map email (membersOf id w))
             "✅ Team Verified - Innovate-X 2025"
             (acceptanceHtml t qrCodeUrl note)
             (Some [ {| content := base64 env (generateICS env (teamName t) (projectTitle t));
                        name := "innovate-x-2025.ics" |} ]))
            (committed env id note actingAdmin d t w)
      | REJECT =>
          sendEmail env [contactEmail t] "Innovate-X 2025 Registration Update"
            (rejectionHtml t note) None (committed env id note actingAdmin d t w)
      end
    with
    | (w', Ok _) => (w', Ok okResponse)
    | (w', Throw e) => (w', Throw e)
    end.
Proof.
  intros H. unfold patch_status_try.
  rewrite bind_run, parse_decide_request. cbv beta iota zeta.
  cbn [params_id session_adminEmail decide_request].
  rewrite bind_run. unfold storage.getTeamById at 1. rewrite H. cbv beta iota zeta.
  rewrite bind_run. unfold storage.updateTeamStatus.
  rewrite (update_where_id_some _ _ _ _ H). cbv beta iota zeta.
  rewrite bind_run. unfold storage.createAuditLog at 1. cbv beta iota zeta.
  rewrite bind_run. unfold storage.getMembersByTeamId at 1. cbv beta iota zeta.
  rewrite bind_run. destruct d; reflexivity.
Qed.

Lemma decide_reject_run (t : Team) :
  teams w !! id = Some t ->
  decideTeam env id REJECT note actingAdmin w
  = (rejectedWorld env id note actingAdmin t w, answer env (rejectionEmail note t)).
Proof.
  intros H. unfold decideTeam, patch_status. rewrite (decide_prefix REJECT t H).
  unfold sendEmail, answer, rejectedWorld, rejectionEmail. cbn [default].
  by destruct (brevo_ok env _).
Qed.

Lemma decide_verify_qr_failed_run (t : Team) :
  teams w !! id = Some t ->
  qr_service env (qrData id t) = None ->
  decideTeam env id VERIFY note actingAdmin w
  = (qrAsked env id note actingAdmin t w, failedResponse).
Proof.
  intros H Hqr. unfold decideTeam, patch_status. rewrite (decide_prefix VERIFY t H).
  rewrite bind_run. unfold generateQRCode. by rewrite Hqr.
Qed.

Lemma decide_verify_run (t : Team) (url : string) :
  teams w !! id = Some t ->
  qr_service env (qrData id t) = Some url ->
  decideTeam env id VERIFY note actingAdmin w
  = (verifiedWorld env id note actingAdmin t url w,
     answer env (acceptanceEmail env id note t url w)).
Proof.
  intros H Hqr. unfold decideTeam, patch_status. rewrite (decide_prefix VERIFY t H).
  rewrite bind_run. unfold generateQRCode at 1. rewrite Hqr. cbv beta iota zeta.
  rewrite bind_run.
  rewrite (updateTeamQrCode_some id url _ (decidedTeam env note actingAdmin VERIFY t))
    by apply lookup_insert_eq.
  cbv beta iota zeta.
  unfold sendEmail, answer, verifiedWorld, acceptanceEmail, qrAsked. cbn [default].
  by destruct (brevo_ok env _).
Qed.

End Runs.

(** ** Occurrences in the mail templates *)

Lemma append_cons (c : ascii) (s t : string) : String c s +:+ t = String c (s +:+ t).
Proof. reflexivity. Qed.

Lemma append_empty_l (s : string) : EmptyString +:+ s = s.
Proof. reflexivity. Qed.

Lemma append_empty_r (s : string) : s +:+ EmptyString = s.
Proof. induction s as [|c s IH]; [done | by rewrite append_cons, IH]. Qed.

Lemma append_assoc (a b c : string) : (a +:+ b) +:+ c = a +:+ (b +:+ c).
Proof. induction a as [|x a IH]; [done | by rewrite !append_cons, IH]. Qed.

Lemma occurs_in_self (s : string) : occurs_in s s.
Proof. exists EmptyString, EmptyString. by rewrite append_empty_r, append_empty_l. Qed.

Lemma occurs_in_empty (t : string) : occurs_in EmptyString t.
Proof. by exists EmptyString, t. Qed.

Lemma occurs_in_prepend (s p t : string) : occurs_in s t -> occurs_in s (p +:+ t).
Proof.
  intros (pre & post & ->). exists (p +:+ pre), post. by rewrite append_assoc.
Qed.

Lemma occurs_in_extend (s t q : string) : occurs_in s t -> occurs_in s (t +:+ q).
Proof.
  intros (pre & post & ->). exists pre, (post +:+ q). by rewrite !append_assoc.
Qed.

(** What occurs in a line of a template occurs in the template. *)
Lemma occurs_in_template (s line : string) (lines : list string) :
  In line lines -> occurs_in s line -> occurs_in s (template lines).
Proof.
  intros Hin Hs. induction lines as [|l lines IH]; [destruct Hin|].
  unfold template. cbn [foldr]. fold (template lines).
  do 2 apply occurs_in_prepend.
  destruct Hin as [-> | Hin].
  - by apply occurs_in_extend.
  - apply occurs_in_prepend. by apply IH.
Qed.


Lemma rejectionHtml_shows_note (t : Team) (n : string) :
  occurs_in n (rejectionHtml t (Some n)).
Proof.
  destruct n as [|c n]; [apply occurs_in_empty|].
  unfold rejectionHtml.
  eapply occurs_in_template; [do 3 right; left; reflexivity|].
  cbn [truthy]. apply occurs_in_prepend, occurs_in_extend, occurs_in_self.
Qed.

Lemma acceptanceHtml_shows_note (t : Team) (url n : string) :
  occurs_in n (acceptanceHtml t url (Some n)).
Proof.
  destruct n as [|c n]; [apply occurs_in_empty|].
  unfold acceptanceHtml.
  eapply occurs_in_template; [do 16 right; left; reflexivity|].
  cbn [truthy]. apply occurs_in_prepend, occurs_in_extend, occurs_in_self.
Qed.

(** ** The rows after a write *)

Lemma qrData_apply_set (id : string) (u : TeamUpdates) (t : Team) :
  qrData id (apply_set u t) = qrData id t.
Proof. reflexivity. Qed.

Lemma committed_lookup env id note actingAdmin d t w :
  teams (committed env id note actingAdmin d t w) !! id
  = Some (decidedTeam env note actingAdmin d t).
Proof. apply lookup_insert_eq. Qed.

Lemma verifiedWorld_lookup env id note actingAdmin t url w :
  teams (verifiedWorld env id note actingAdmin t url w) !! id
  = Some (apply_set (storage.qrUpdates url) (decidedTeam env note actingAdmin VERIFY t)).
Proof. apply lookup_insert_eq. Qed.

Lemma rejectedWorld_lookup env id note actingAdmin t w :
  teams (rejectedWorld env id note actingAdmin t w) !! id
  = Some (decidedTeam env note actingAdmin REJECT t).
Proof. apply lookup_insert_eq. Qed.

Lemma or_else_truthy (a b : string) : truthy a = true -> or_else a b = a.
Proof. unfold or_else. by intros ->. Qed.

(** ** The decision on a team that does not exist *)

(** C3.  When [teamId] resolves to no team, [decide] answers 404 "Team not
    found" and leaves the world as it was: no row is written, no audit
    entry appended, no QR code asked for and no mail posted. *)
Theorem decide_unknown_team_not_found
    (env : Env) (id : string) (d : Decision) (note : option string)
    (actingAdmin : string) (w : World) :
  teams w !! id = None ->
  let r := decideTeam env id d note actingAdmin w in
  code r.2 = 404
  /\ json r.2 = [("error"%string, Json.JString "Team not found")]
  /\ r.1 = w.
Proof. intros H r. subst r. by rewrite decide_missing_run. Qed.

Lemma decide_unknown_team_not_found_witness :
  teams Sample.world !! "missing-id"%string = None
  /\ (decideTeam Sample.env "missing-id" VERIFY None Sample.admin Sample.world).1
     = Sample.world.
Proof.
  split; [reflexivity|].
  apply (decide_unknown_team_not_found Sample.env "missing-id" VERIFY None Sample.admin
           Sample.world).
  reflexivity.
Defined.

(** ** Verifying a pending team *)







(** ** Rejecting a team *)

(** C6.  Rejecting a team posts exactly one mail, addressed to the team's
    [contactEmail] alone, whose body contains the rejection note; no QR
    code is asked for. *)
Theorem reject_mails_contact_only
    (env : Env) (id : string) (note : option string) (actingAdmin : string)
    (w : World) (t : Team) :
  teams w !! id = Some t ->
  let w' := (decideTeam env id REJECT note actingAdmin w).1 in
  exists mail : Email,
    outbox w' = outbox w ++ [mail]
    /\ to mail = [contactEmail t]
    /\ (forall n : string, note = Some n -> occurs_in n (htmlContent mail))
    /\ attachment mail = []
    /\ qrRequests w' = qrRequests w.
Proof.
  intros Ht w'. subst w'.
  rewrite (decide_reject_run env id note actingAdmin w t Ht). cbn [fst].
  exists (rejectionEmail note t). repeat split.
  intros n ->. apply rejectionHtml_shows_note.
Qed.

Lemma reject_mails_contact_only_witness :
  exists mail : Email,
    outbox (decideTeam Sample.env "t1" REJECT (Some "Payment proof unreadable"%string)
              Sample.admin Sample.world).1 = [mail]
    /\ to mail = ["lead@alpha.example"%string]
    /\ occurs_in "Payment proof unreadable" (htmlContent mail).
Proof.
  destruct (reject_mails_contact_only Sample.env "t1" (Some "Payment proof unreadable"%string)
              Sample.admin Sample.world Sample.alpha eq_refl)
    as (mail & Hout & Hto & Hnote & _).
  exists mail. repeat split; [exact Hout | exact Hto | by apply Hnote].
Defined.

(** ** A mail that cannot be sent *)

(** C8.  When Brevo refuses the mail, the decision that was written before
    stays written: the caller gets a 500, yet the team carries the decided
    status and note (and, once verified, [verifiedAt] and [verifiedBy]),
    and the audit entry appended before the mail is still the last one. *)
Theorem failed_mail_keeps_decision
    (env : Env) (id : string) (d : Decision) (note : option string)
    (actingAdmin : string) (w : World) (t : Team) :
  teams w !! id = Some t ->
  qrReady env id d t ->
  (forall mail : Email, brevo_ok env mail = false) ->
  let r := decideTeam env id d note actingAdmin w in
  code r.2 = 500
  /\ length (outbox r.1) = S (length (outbox w))
  /\ auditLogs r.1 = auditLogs w ++ [auditEntry env id note actingAdmin d]
  /\ exists t' : Team,
       teams r.1 !! id = Some t'
       /\ status t' = decided d
       /\ (d = VERIFY ->
           verifiedAt t' = Some (clock env 1%nat)
           /\ verifiedBy t' = Some (or_else actingAdmin "admin")).
Proof.
  intros Ht Hqr Hdown r. subst r. destruct d.
  - destruct Hqr as [url Hqr].
    rewrite (decide_verify_run env id note actingAdmin w t url Ht Hqr).
    unfold answer. rewrite Hdown. cbn [fst snd]. repeat split.
    + cbn. rewrite length_app. cbn. lia.
    + eexists. split; [apply verifiedWorld_lookup|]. by cbn.
  - rewrite (decide_reject_run env id note actingAdmin w t Ht).
    unfold answer. rewrite Hdown. cbn [fst snd]. repeat split.
    + cbn. rewrite length_app. cbn. lia.
    + eexists. split; [apply rejectedWorld_lookup|]. by cbn.
Qed.

Lemma failed_mail_keeps_decision_witness :
  let r := decideTeam Sample.env_brevo_down "t1" VERIFY None Sample.admin Sample.world in
  code r.2 = 500
  /\ exists t' : Team, teams r.1 !! "t1"%string = Some t' /\ status t' = VERIFIED.
Proof.
  destruct (failed_mail_keeps_decision Sample.env_brevo_down "t1" VERIFY None Sample.admin
              Sample.world Sample.alpha eq_refl
              (ex_intro _ "https://cdn.example/qr-codes/1.png"%string eq_refl)
              (fun _ => eq_refl))
    as (Hcode & _ & _ & t' & Hlook & Hst & _).
  split; [exact Hcode | by exists t'].
Defined.

(** ** What [updateTeamStatus] writes *)

(** C10.  [updateTeamStatus] rewrites the row of the team in at most its
    status, note, update time and, for VERIFIED, verification time and
    verifier: every other column, [qrCodeUrl], [paymentProofUrl] and
    [memberCount] among them, keeps its value; a REJECTED decision leaves
    [verifiedAt] and [verifiedBy] as they were; no other row and no other
    table changes. *)
Theorem updateTeamStatus_frame
    (env : Env) (id : string) (d : Decision) (note : option string)
    (verifiedBy0 : string) (w : World) (t : Team) :
  teams w !! id = Some t ->
  let r := storage.updateTeamStatus env id d note verifiedBy0 w in
  exists (s : Status) (n : option string) (u : Z) (va : option Z) (vb : option string),
    let t' :=
      {| teamName := teamName t;
         category := category t;
         projectTitle := projectTitle t;
         projectSummary := projectSummary t;
         collegeName := collegeName t;
         mentorName := mentorName t;
         mentorEmail := mentorEmail t;
         contactPhone := contactPhone t;
         contactEmail := contactEmail t;
         memberCount := memberCount t;
         paymentProofUrl := paymentProofUrl t;
         extraDocUrl := extraDocUrl t;
         status := s;
         verificationNote := n;
         qrCodeUrl := qrCodeUrl t;
         verifiedAt := va;
         verifiedBy := vb;
         createdAt := createdAt t;
         updatedAt := u |} in
    r.2 = Ok (Some t')
    /\ teams r.1 !! id = Some t'
    /\ s = decided d
    /\ (d = REJECT -> va = verifiedAt t /\ vb = verifiedBy t)
    /\ (forall other : string, other ≠ id -> teams r.1 !! other = teams w !! other)
    /\ members r.1 = members w
    /\ auditLogs r.1 = auditLogs w
    /\ eventSettings r.1 = eventSettings w
    /\ qrRequests r.1 = qrRequests w
    /\ outbox r.1 = outbox w.
Proof.
  intros Ht r. subst r. unfold storage.updateTeamStatus.
  rewrite (update_where_id_some _ _ _ _ Ht). cbn [fst snd].
  assert (Hother : forall other : string, other ≠ id ->
            teams (with_teams (insert id (apply_set (storage.statusUpdates env d note
                     verifiedBy0) t)) w) !! other = teams w !! other).
  { intros other Hne. cbn. by apply lookup_insert_ne. }
  destruct d; eexists _, _, _, _, _; cbv zeta.
  - split; [reflexivity|]. split; [apply lookup_insert_eq|]. by repeat split.
  - split; [reflexivity|]. split; [apply lookup_insert_eq|]. by repeat split.
Qed.

Lemma updateTeamStatus_frame_witness :
  exists t' : Team,
    teams (storage.updateTeamStatus Sample.env "t1" REJECT None Sample.admin
             Sample.world).1 !! "t1"%string = Some t'
    /\ status t' = REJECTED
    /\ verifiedAt t' = None
    /\ verifiedBy t' = None
    /\ qrCodeUrl t' = None
    /\ memberCount t' = 3.
Proof.
  destruct (updateTeamStatus_frame Sample.env "t1" REJECT None Sample.admin Sample.world
              Sample.alpha eq_refl)
    as (s & n & u & va & vb & _ & Hlook & -> & Hrej & _).
  destruct (Hrej eq_refl) as [-> ->].
  eexists. split; [exact Hlook|]. repeat split.
Defined.

(** [updateTeamQrCode] in turn writes [qrCodeUrl] and nothing else. *)
Lemma updateTeamQrCode_frame (id url : string) (w : World) (t : Team) :
  teams w !! id = Some t ->
  teams (storage.updateTeamQrCode id url w).1 !! id
  = Some
      {| teamName := teamName t;
         category := category t;
         projectTitle := projectTitle t;
         projectSummary := projectSummary t;
         collegeName := collegeName t;
         mentorName := mentorName t;
         mentorEmail := mentorEmail t;
         contactPhone := contactPhone t;
         contactEmail := contactEmail t;
         memberCount := memberCount t;
         paymentProofUrl := paymentProofUrl t;
         extraDocUrl := extraDocUrl t;
         status := status t;
         verificationNote := verificationNote t;
         qrCodeUrl := Some url;
         verifiedAt := verifiedAt t;
         verifiedBy := verifiedBy t;
         createdAt := createdAt t;
         updatedAt := updatedAt t |}.
Proof.
  intros Ht. rewrite (updateTeamQrCode_some _ _ _ _ Ht). cbn. apply lookup_insert_eq.
Qed.

(** ** Deciding again *)

(** One decision on a team that exists, whatever its status. *)
Lemma decide_run_any
    (env : Env) (id : string) (d : Decision) (note : option string)
    (actingAdmin : string) (w : World) (t : Team) :
  teams w !! id = Some t ->
  qrReady env id d t ->
  exists (w' : World) (mail : Email) (t' : Team),
    decideTeam env id d note actingAdmin w = (w', answer env mail)
    /\ teams w' !! id = Some t'
    /\ status t' = decided d
    /\ qrData id t' = qrData id t
    /\ auditLogs w' = auditLogs w ++ [auditEntry env id note actingAdmin d]
    /\ outbox w' = outbox w ++ [mail]
    /\ qrRequests w'
       = qrRequests w ++ match d with VERIFY => [qrData id t] | REJECT => [] end.
Proof.
  intros Ht Hqr. destruct d.
  - destruct Hqr as [url Hqr].
    rewrite (decide_verify_run env id note actingAdmin w t url Ht Hqr).
    eexists _, _, _. split; [reflexivity|]. split; [apply verifiedWorld_lookup|].
    repeat split.
  - rewrite (decide_reject_run env id note actingAdmin w t Ht).
    eexists _, _, _. split; [reflexivity|]. split; [apply rejectedWorld_lookup|].
    repeat split. cbn. by rewrite app_nil_r.
Qed.

Lemma qrReady_same_payload (env : Env) (id : string) (d : Decision) (t t' : Team) :
  qrData id t' = qrData id t -> qrReady env id d t -> qrReady env id d t'.
Proof. intros H. destruct d; cbn; [by rewrite H | done]. Qed.

(** C1, as the code has it.  The handler does not look at the status of
    the team it finds.  A second decision (here [d2], after [d1]) on the
    same team runs like the first: it writes the status asked for, appends
    one more audit entry, posts one more mail and answers by that mail's
    fate alone; on VERIFY it asks for one more QR code.  Two decisions in a
    row make two status writes, two audit entries and two mails. *)
Theorem decide_runs_whatever_the_status
    (env1 env2 : Env) (id : string) (d1 d2 : Decision) (note1 note2 : option string)
    (admin1 admin2 : string) (w : World) (t : Team) :
  teams w !! id = Some t ->
  qrReady env1 id d1 t ->
  qrReady env2 id d2 t ->
  let r1 := decideTeam env1 id d1 note1 admin1 w in
  let r2 := decideTeam env2 id d2 note2 admin2 r1.1 in
  status <$> teams r1.1 !! id = Some (decided d1)
  /\ status <$> teams r2.1 !! id = Some (decided d2)
  /\ (exists mail : Email, outbox r2.1 = outbox r1.1 ++ [mail] /\ r2.2 = answer env2 mail)
  /\ length (outbox r2.1) = (2 + length (outbox w))%nat
  /\ length (auditLogs r2.1) = (2 + length (auditLogs w))%nat
  /\ qrRequests r2.1
     = qrRequests r1.1 ++ match d2 with VERIFY => [qrData id t] | REJECT => [] end.
Proof.
  intros Ht Hqr1 Hqr2 r1 r2. subst r1 r2.
  destruct (decide_run_any env1 id d1 note1 admin1 w t Ht Hqr1)
    as (w1 & mail1 & t1 & -> & Ht1 & Hst1 & Hpay1 & Hlog1 & Hout1 & _).
  cbn [fst].
  destruct (decide_run_any env2 id d2 note2 admin2 w1 t1 Ht1
              (qrReady_same_payload env2 id d2 t t1 Hpay1 Hqr2))
    as (w2 & mail2 & t2 & -> & Ht2 & Hst2 & _ & Hlog2 & Hout2 & Hqr).
  cbn [fst snd]. rewrite Ht1, Ht2. cbn [fmap option_fmap option_map].
  rewrite Hst1, Hst2, Hout2, Hlog2, Hout1, Hlog1, Hqr, Hpay1, !length_app. cbn [length].
  repeat split; [by exists mail2 | lia | lia].
Qed.

Lemma decide_runs_whatever_the_status_witness :
  let r1 := decideTeam Sample.env "t1" VERIFY (Some "Welcome"%string) Sample.admin
              Sample.world in
  let r2 := decideTeam Sample.env "t1" REJECT None Sample.admin r1.1 in
  status <$> teams r2.1 !! "t1"%string = Some REJECTED
  /\ length (outbox r2.1) = 2%nat.
Proof.
  destruct (decide_runs_whatever_the_status Sample.env Sample.env "t1" VERIFY REJECT
              (Some "Welcome"%string) None Sample.admin Sample.admin Sample.world
              Sample.alpha eq_refl
              (ex_intro _ "https://cdn.example/qr-codes/1.png"%string eq_refl) I)
    as (_ & Hst & _ & Hout & _).
  split; [exact Hst | exact Hout].
Defined.

(** The reading of C1 refuted: the team of the sample world is verified,
    then rejected.  The second call answers 200, turns VERIFIED into
    REJECTED and posts a second mail; verifying twice asks for a second QR
    code. *)
Lemma decide_again_counterexample :
  let w1 := (decideTeam Sample.env "t1" VERIFY (Some "Welcome"%string) Sample.admin
               Sample.world).1 in
  let again := decideTeam Sample.env "t1" REJECT None Sample.admin w1 in
  let twice := decideTeam Sample.env "t1" VERIFY (Some "Welcome"%string) Sample.admin w1 in
  status <$> teams w1 !! "t1"%string = Some VERIFIED
  /\ length (outbox w1) = 1%nat
  /\ code again.2 = 200
  /\ again.1 ≠ w1
  /\ status <$> teams again.1 !! "t1"%string = Some REJECTED
  /\ length (outbox again.1) = 2%nat
  /\ length (auditLogs again.1) = 2%nat
  /\ code twice.2 = 200
  /\ length (outbox twice.1) = 2%nat
  /\ length (qrRequests twice.1) = 2%nat.
Proof.
  cbv zeta. repeat split; try (vm_compute; reflexivity).
  intros Heq. apply (f_equal (fun w => length (outbox w))) in Heq.
  vm_compute in Heq. discriminate.
Qed.

(** ** The check-in token *)

Lemma quote_category (c : Category) :
  Json.quote (category_text c) = dq +:+ category_text c +:+ dq.
Proof. by destruct c. Qed.

Lemma qrData_snapshot (id : string) (t1 t2 : Team) :
  teamName t1 = teamName t2 -> category t1 = category t2 -> qrData id t1 = qrData id t2.
Proof. unfold qrData. by intros -> ->. Qed.

(** What a verification hands to [generateQRCode], whether or not the QR
    service then succeeds. *)
Lemma decide_verify_qrRequests
    (env : Env) (id : string) (note : option string) (actingAdmin : string)
    (w : World) (t : Team) :
  teams w !! id = Some t ->
  qrRequests (decideTeam env id VERIFY note actingAdmin w).1 = qrRequests w ++ [qrData id t].
Proof.
  intros Ht. destruct (qr_service env (qrData id t)) as [url|] eqn:Hqr.
  - by rewrite (decide_verify_run env id note actingAdmin w t url Ht Hqr).
  - by rewrite (decide_verify_qr_failed_run env id note actingAdmin w t Ht Hqr).
Qed.

(** C4.  The token a verification encodes in the QR image is the JSON text
    of [{teamId, teamName, category, verified: true}] and of nothing else.
    Two verifications of teams with the same id, name and category, under
    any clocks, collaborators, notes, administrators and remaining columns,
    hand the same bytes to the QR generator. *)
Theorem checkin_token_deterministic
    (env1 env2 : Env) (id : string) (note1 note2 : option string)
    (admin1 admin2 : string) (w1 w2 : World) (t1 t2 : Team) :
  teams w1 !! id = Some t1 ->
  teams w2 !! id = Some t2 ->
  teamName t1 = teamName t2 ->
  category t1 = category t2 ->
  exists token : string,
    qrRequests (decideTeam env1 id VERIFY note1 admin1 w1).1 = qrRequests w1 ++ [token]
    /\ qrRequests (decideTeam env2 id VERIFY note2 admin2 w2).1 = qrRequests w2 ++ [token]
    /\ token = qrData id t1
    /\ token
       = Json.stringify
           [ ("teamId"%string, Json.JString id);
             ("teamName"%string, Json.JString (teamName t1));
             ("category"%string, Json.JString (category_text (category t1)));
             ("verified"%string, Json.JBool true) ]
    /\ token
       = "{" +:+ (dq +:+ "teamId" +:+ dq) +:+ ":" +:+ Json.quote id +:+ ","
         +:+ (dq +:+ "teamName" +:+ dq) +:+ ":" +:+ Json.quote (teamName t1) +:+ ","
         +:+ (dq +:+ "category" +:+ dq) +:+ ":"
         +:+ (dq +:+ category_text (category t1) +:+ dq) +:+ ","
         +:+ (dq +:+ "verified" +:+ dq) +:+ ":" +:+ "true" +:+ "}".
Proof.
  intros H1 H2 Hname Hcat. exists (qrData id t1).
  rewrite (decide_verify_qrRequests env1 id note1 admin1 w1 t1 H1).
  rewrite (decide_verify_qrRequests env2 id note2 admin2 w2 t2 H2).
  rewrite <- (qrData_snapshot id t1 t2 Hname Hcat).
  repeat split.
  rewrite <- (quote_category (category t1)).
  unfold qrData, Json.stringify, Json.join_members, Json.stringify_member,
    Json.stringify_value. cbn [fst snd].
  change (Json.quote "teamId") with (dq +:+ "teamId" +:+ dq).
  change (Json.quote "teamName") with (dq +:+ "teamName" +:+ dq).
  change (Json.quote "category") with (dq +:+ "category" +:+ dq).
  change (Json.quote "verified") with (dq +:+ "verified" +:+ dq).
  by rewrite !append_assoc.
Qed.

Lemma checkin_token_deterministic_witness :
  qrRequests (decideTeam Sample.env "t1" VERIFY None Sample.admin Sample.world).1
  = qrRequests (decideTeam Sample.env_brevo_down "t1" VERIFY (Some "Welcome"%string)
                  "other@innovatex.example" (with_eventSettings ∅ Sample.world)).1
  /\ qrRequests (decideTeam Sample.env "t1" VERIFY None Sample.admin Sample.world).1
     = [ ("{" +:+ dq +:+ "teamId" +:+ dq +:+ ":" +:+ dq +:+ "t1" +:+ dq +:+ ","
          +:+ dq +:+ "teamName" +:+ dq +:+ ":" +:+ dq +:+ "Alpha" +:+ dq +:+ ","
          +:+ dq +:+ "category" +:+ dq +:+ ":" +:+ dq +:+ "SOFTWARE" +:+ dq +:+ ","
          +:+ dq +:+ "verified" +:+ dq +:+ ":true}")%string ].
Proof.
  destruct (checkin_token_deterministic Sample.env Sample.env_brevo_down "t1" None
              (Some "Welcome"%string) Sample.admin "other@innovatex.example"
              Sample.world (with_eventSettings ∅ Sample.world) Sample.alpha Sample.alpha
              eq_refl eq_refl eq_refl eq_refl)
    as (token & Hone & Htwo & Htok & _).
  rewrite Hone, Htwo. split; [reflexivity|]. rewrite Htok. reflexivity.
Defined.

(** ** The calendar attachment *)

Lemma or_else_empty (a : string) : or_else a EmptyString = a.
Proof. by destruct a. Qed.

Lemma generateICS_value (env : Env) (teamName0 projectTitle0 : string) :
  generateICS env teamName0 projectTitle0
  = match error (createEvent env (icsAttributes teamName0 projectTitle0)) with
    | Some _ => EmptyString
    | None => default EmptyString (value (createEvent env (icsAttributes teamName0 projectTitle0)))
    end.
Proof. unfold generateICS. destruct (error _); [done | apply or_else_empty]. Qed.

(** The handler never reads the settings table. *)
Lemma decide_ignores_settings
    (env : Env) (id : string) (d : Decision) (note : option string)
    (actingAdmin : string) (w : World) (settings : gmap string string) :
  decideTeam env id d note actingAdmin (with_eventSettings settings w)
  = (with_eventSettings settings (decideTeam env id d note actingAdmin w).1,
     (decideTeam env id d note actingAdmin w).2).
Proof.
  destruct (teams w !! id) as [t|] eqn:Ht.
  - destruct d.
    + destruct (qr_service env (qrData id t)) as [url|] eqn:Hqr.
      * rewrite (decide_verify_run env id note actingAdmin w t url Ht Hqr).
        by rewrite (decide_verify_run env id note actingAdmin
                      (with_eventSettings settings w) t url Ht Hqr).
      * rewrite (decide_verify_qr_failed_run env id note actingAdmin w t Ht Hqr).
        by rewrite (decide_verify_qr_failed_run env id note actingAdmin
                      (with_eventSettings settings w) t Ht Hqr).
    + rewrite (decide_reject_run env id note actingAdmin w t Ht).
      by rewrite (decide_reject_run env id note actingAdmin
                    (with_eventSettings settings w) t Ht).
  - rewrite (decide_missing_run env id note actingAdmin w d Ht).
    by rewrite (decide_missing_run env id note actingAdmin
                  (with_eventSettings settings w) d Ht).
Qed.

(** C7, where the code departs from it.  The calendar attached on VERIFY
    is the text
    the [ics] library makes of one event with status CONFIRMED whose start
    (25 November 2025, 9:00), end (17:00) and location ("Main Auditorium,
    Your College") are constants of the code and whose description names
    the team and its project.  The event settings are not read: under any
    other settings, present or missing, the same mail goes out.  When the
    library reports an error the attachment is empty; nothing is thrown. *)
Theorem calendar_is_fixed
    (env : Env) (id : string) (note : option string) (actingAdmin : string)
    (w : World) (t : Team) (url : string) (settings : gmap string string) :
  teams w !! id = Some t ->
  qr_service env (qrData id t) = Some url ->
  let event := icsAttributes (teamName t) (projectTitle t) in
  let calendar :=
    match error (createEvent env event) with
    | Some _ => EmptyString
    | None => default EmptyString (value (createEvent env event))
    end in
  ev_status event = "CONFIRMED"%string
  /\ start event = [2025; 11; 25; 9; 0]
  /\ end_ event = [2025; 11; 25; 17; 0]
  /\ location event = "Main Auditorium, Your College"%string
  /\ description event
     = ("Team: " +:+ teamName t +:+ nl +:+ "Project: " +:+ projectTitle t +:+ nl +:+ nl
        +:+ "Please arrive 30 minutes early for check-in and setup.")%string
  /\ (exists mail : Email,
        outbox (decideTeam env id VERIFY note actingAdmin w).1 = outbox w ++ [mail]
        /\ attachment mail
           = [ {| content := base64 env calendar; name := "innovate-x-2025.ics" |} ])
  /\ outbox (decideTeam env id VERIFY note actingAdmin (with_eventSettings settings w)).1
     = outbox (decideTeam env id VERIFY note actingAdmin w).1.
Proof.
  intros Ht Hqr event calendar. repeat split.
  - rewrite (decide_verify_run env id note actingAdmin w t url Ht Hqr).
    eexists. split; [reflexivity|]. cbn [attachment acceptanceEmail].
    by rewrite generateICS_value.
  - by rewrite decide_ignores_settings.
Qed.

Lemma calendar_is_fixed_witness :
  exists mail : Email,
    outbox (decideTeam Sample.env "t1" VERIFY None Sample.admin Sample.world).1 = [mail]
    /\ map content (attachment mail)
       = [ ("LOCATION:Main Auditorium, Your College" +:+ nl
            +:+ "DTSTART:2025.11.25.9.0.")%string ].
Proof.
  destruct (calendar_is_fixed Sample.env "t1" None Sample.admin Sample.world Sample.alpha
              "https://cdn.example/qr-codes/1.png" ∅ eq_refl eq_refl)
    as (_ & _ & _ & _ & _ & (mail & Hout & Hics) & _).
  exists mail. split; [exact Hout|]. rewrite Hics. reflexivity.
Defined.

(** C7 on the sample world.  The calendar generated on VERIFY should
    take its date, time, venue and address from the event settings.  The
    settings of the sample world name the venue "Hall B", the date
    2026-01-10 and the time 10:30; the calendar that goes out is set in
    "Main Auditorium, Your College" on 25 November 2025 at 9:00, and
    emptying the settings changes nothing in the mail. *)
Lemma calendar_settings_counterexample :
  let sent := outbox (decideTeam Sample.env "t1" VERIFY None Sample.admin Sample.world).1 in
  eventSettings Sample.world !! "EVENT_VENUE"%string = Some "Hall B"%string
  /\ eventSettings Sample.world !! "EVENT_DATE"%string = Some "2026-01-10"%string
  /\ eventSettings Sample.world !! "EVENT_TIME"%string = Some "10:30"%string
  /\ location (icsAttributes (teamName Sample.alpha) (projectTitle Sample.alpha))
     = "Main Auditorium, Your College"%string
  /\ start (icsAttributes (teamName Sample.alpha) (projectTitle Sample.alpha))
     = [2025; 11; 25; 9; 0]
  /\ map (fun mail => map content (attachment mail)) sent
     = [ [ ("LOCATION:Main Auditorium, Your College" +:+ nl
            +:+ "DTSTART:2025.11.25.9.0.")%string ] ]
  /\ outbox (decideTeam Sample.env "t1" VERIFY None Sample.admin
               (with_eventSettings ∅ Sample.world)).1
     = sent.
Proof. cbv zeta. repeat split; vm_compute; reflexivity. Qed.

(** ** The client's retry after a 403 *)

Section Retry.

Import Client.

Variable net : Network.
Variable method url : string.
Variable data : option Data.

(** A call that may not retry makes its one request and returns. *)
Lemma apiRequest_replay (extra : nat) (st : ClientState) :
  exists out : Outcome,
    apiRequest (S extra) net method url data false st
    = Some ({| csrfToken := csrfToken st;
               calls := calls st ++ [request_call method url data st] |}, out).
Proof.
  cbn [apiRequest]. unfold apiRequest_body, fetch.
  destruct (net (calls st) (request_call method url data st)) as [res|]; [|by eexists].
  rewrite andb_false_r. cbn [andb]. unfold settle.
  destruct (throwIfResNotOk res); by eexists.
Qed.

(** C9.  [apiRequest] returns for every request, server and network,
    within two unrollings.  A call that may not retry (the replay) makes
    exactly one request and no refresh.  A first call makes its request,
    at most one refresh of the CSRF token and, only after a refresh, one
    replay that carries the new token: one or two requests in all, never
    a third.  A first answer that is not a 403, or any answer to a GET, is
    settled at once, without refresh.  A 403 to a mutating request is
    followed by the refresh; when the refresh answers [ok] with a token,
    the token is stored and the request is replayed exactly once under it,
    the replay's outcome being the outcome; when the refresh fails, the
    403 is settled and nothing is replayed. *)
Theorem apiRequest_retries_at_most_once (extra : nat) (st : ClientState) :
  (exists out : Outcome,
     apiRequest (S extra) net method url data false st
     = Some ({| csrfToken := csrfToken st;
                calls := calls st ++ [request_call method url data st] |}, out))
  /\ (exists (st' : ClientState) (out : Outcome) (made : list FetchCall),
         apiRequest (S (S extra)) net method url data true st = Some (st', out)
         /\ calls st' = calls st ++ made
         /\ (made = [request_call method url data st]
             \/ made = [request_call method url data st; refresh_call]
             \/ exists newToken : option string,
                  made = [request_call method url data st; refresh_call;
                          request_call method url data (setCsrfToken newToken st)]
                  /\ csrfToken st' = newToken)
         /\ (1 <= length (calls_from request_site made) <= 2)%nat
         /\ (length (calls_from csrf_site made) <= 1)%nat)
  /\ (forall res : FetchResponse,
        net (calls st) (request_call method url data st) = Some res ->
        res_status res ≠ 403 \/ String.eqb method "GET" = true ->
        apiRequest (S (S extra)) net method url data true st
        = Some (settle res
                  {| csrfToken := csrfToken st;
                     calls := calls st ++ [request_call method url data st] |}))
  /\ (forall res : FetchResponse,
        net (calls st) (request_call method url data st) = Some res ->
        res_status res = 403 ->
        String.eqb method "GET" = false ->
        match net (calls st ++ [request_call method url data st]) refresh_call with
        | Some csrfRes => ok csrfRes = false \/ json_csrfToken csrfRes = None
        | None => True
        end ->
        apiRequest (S (S extra)) net method url data true st
        = Some (settle res
                  {| csrfToken := csrfToken st;
                     calls := calls st
                              ++ [request_call method url data st; refresh_call] |}))
  /\ (forall (res csrfRes : FetchResponse) (newToken : option string),
        net (calls st) (request_call method url data st) = Some res ->
        res_status res = 403 ->
        String.eqb method "GET" = false ->
        net (calls st ++ [request_call method url data st]) refresh_call = Some csrfRes ->
        ok csrfRes = true ->
        json_csrfToken csrfRes = Some newToken ->
        apiRequest (S (S extra)) net method url data true st
        = apiRequest (S extra) net method url data false
            {| csrfToken := newToken;
               calls := calls st ++ [request_call method url data st; refresh_call] |}
        /\ exists out : Outcome,
             apiRequest (S (S extra)) net method url data true st
             = Some ({| csrfToken := newToken;
                        calls :=
                          calls st
                          ++ [request_call method url data st; refresh_call;
                              request_call method url data (setCsrfToken newToken st)] |},
                     out)).
Proof.
  split; [apply apiRequest_replay|].
  split.
  {
  cbn [apiRequest]. unfold apiRequest_body at 1. unfold fetch at 1.
  destruct (net (calls st) (request_call method url data st)) as [res|].
  2:{ eexists _, _, [_]. split; [reflexivity|]. split; [reflexivity|].
      split; [by left|]. vm_compute; lia. }
  destruct ((res_status res =? 403)%Z && true && negb (String.eqb method "GET")).
  2:{ unfold settle.
      destruct (throwIfResNotOk res); eexists _, _, [_];
        (split; [reflexivity|]); (split; [reflexivity|]);
        (split; [by left|]); vm_compute; lia. }
  unfold fetch at 1. cbn [calls csrfToken].
  pose (st2 := {| csrfToken := csrfToken st;
                  calls := (calls st ++ [request_call method url data st])
                           ++ [refresh_call] |}).
  fold st2.
  assert (Hsettle : exists (st' : ClientState) (out : Outcome) (made : list FetchCall),
            Some (settle res st2) = Some (st', out)
            /\ calls st' = calls st ++ made
            /\ (made = [request_call method url data st]
                \/ made = [request_call method url data st; refresh_call]
                \/ exists newToken : option string,
                     made = [request_call method url data st; refresh_call;
                             request_call method url data (setCsrfToken newToken st)]
                     /\ csrfToken st' = newToken)
            /\ (1 <= length (calls_from request_site made) <= 2)%nat
            /\ (length (calls_from csrf_site made) <= 1)%nat).
  { unfold settle.
    destruct (throwIfResNotOk res); eexists _, _, [_; _];
      (split; [reflexivity|]); (split; [cbn; by rewrite <- app_assoc|]);
      (split; [right; by left|]); vm_compute; lia. }
  destruct (net (calls st ++ [request_call method url data st]) refresh_call)
    as [csrfRes|]; [|exact Hsettle].
  destruct (ok csrfRes); [|exact Hsettle].
  destruct (json_csrfToken csrfRes) as [newToken|]; [|exact Hsettle].
  destruct (apiRequest_replay extra (setCsrfToken newToken st2)) as [out Hreplay].
  cbn [apiRequest] in Hreplay. rewrite Hreplay.
  eexists _, out, [_; _; _]. split; [reflexivity|].
  split; [cbn; by rewrite <- !app_assoc|].
  split; [right; right; exists newToken; by split|]. vm_compute; lia.
  }
  assert (Hpath : forall (res csrfRes : FetchResponse) (newToken : option string),
          net (calls st) (request_call method url data st) = Some res ->
          res_status res = 403 ->
          String.eqb method "GET" = false ->
          net (calls st ++ [request_call method url data st]) refresh_call = Some csrfRes ->
          ok csrfRes = true ->
          json_csrfToken csrfRes = Some newToken ->
          apiRequest (S (S extra)) net method url data true st
          = apiRequest (S extra) net method url data false
              {| csrfToken := newToken;
                 calls := calls st ++ [request_call method url data st; refresh_call] |}).
  { intros res csrfRes newToken Hres H403 Hmut Hcsrf Hok Htoken.
  cbn [apiRequest]. unfold apiRequest_body at 1. unfold fetch at 1.
  rewrite Hres, H403, Hmut. cbn [Z.eqb Pos.eqb andb negb].
  unfold fetch at 1. cbn [calls csrfToken]. rewrite Hcsrf, Hok, Htoken.
  unfold setCsrfToken. cbn [calls]. by rewrite <- app_assoc. }
  split.
  { intros res Hres Hwhy.
  cbn [apiRequest]. unfold apiRequest_body at 1. unfold fetch at 1. rewrite Hres.
  destruct Hwhy as [Hne | Hget].
  - rewrite (proj2 (Z.eqb_neq _ _) Hne). done.
  - rewrite Hget. cbn [negb]. by rewrite andb_false_r. }
  split.
  { intros res Hres H403 Hmut Hrefresh.
  cbn [apiRequest]. unfold apiRequest_body at 1. unfold fetch at 1.
  rewrite Hres, H403, Hmut. cbn [Z.eqb Pos.eqb andb negb].
  unfold fetch at 1. cbn [calls csrfToken].
  destruct (net (calls st ++ [request_call method url data st]) refresh_call)
    as [csrfRes|]; [|by rewrite <- app_assoc].
  destruct (ok csrfRes); [|by rewrite <- app_assoc].
  destruct Hrefresh as [? | ->]; [done | by rewrite <- app_assoc]. }
  intros res csrfRes newToken Hres H403 Hmut Hcsrf Hok Htoken.
  split; [by eapply Hpath|].
  rewrite (Hpath res csrfRes newToken) by done.
  destruct (apiRequest_replay extra
            {| csrfToken := newToken;
               calls := calls st ++ [request_call method url data st; refresh_call] |})
  as [out Hreplay].
  exists out. rewrite Hreplay. cbn [csrfToken calls]. by rewrite <- app_assoc.
Qed.

(** X18.  When the first answer is a 403 to a mutating request and the
    refresh yields a token, the request is replayed once under that token
    and the replay's outcome is the outcome. *)
Lemma apiRequest_replays_after_refresh
    (extra : nat) (st : ClientState) (res csrfRes : FetchResponse)
    (newToken : option string) :
  net (calls st) (request_call method url data st) = Some res ->
  res_status res = 403 ->
  String.eqb method "GET" = false ->
  net (calls st ++ [request_call method url data st]) refresh_call = Some csrfRes ->
  ok csrfRes = true ->
  json_csrfToken csrfRes = Some newToken ->
  apiRequest (S (S extra)) net method url data true st
  = apiRequest (S extra) net method url data false
      {| csrfToken := newToken;
         calls := calls st ++ [request_call method url data st; refresh_call] |}.
Proof.
  intros Hres H403 Hmut Hcsrf Hok Htoken.
  cbn [apiRequest]. unfold apiRequest_body at 1. unfold fetch at 1.
  rewrite Hres, H403, Hmut. cbn [Z.eqb Pos.eqb andb negb].
  unfold fetch at 1. cbn [calls csrfToken]. rewrite Hcsrf, Hok, Htoken.
  unfold setCsrfToken. cbn [calls]. by rewrite <- app_assoc.
Qed.

End Retry.

Lemma apiRequest_retries_at_most_once_witness :
  Client.apiRequest 2 Sample.strict_server "PATCH" "/api/admin/teams/t1/status"
    (Some (Client.Object "{}")) true Sample.stale_client
  = Client.apiRequest 1 Sample.strict_server "PATCH" "/api/admin/teams/t1/status"
      (Some (Client.Object "{}")) false
      {| Client.csrfToken := Some "fresh"%string;
         Client.calls :=
           Client.calls Sample.stale_client
           ++ [ Client.request_call "PATCH" "/api/admin/teams/t1/status"
                  (Some (Client.Object "{}")) Sample.stale_client;
                Client.refresh_call ] |}
  /\ exists out : Client.Outcome,
       Client.apiRequest 2 Sample.strict_server "PATCH" "/api/admin/teams/t1/status"
         (Some (Client.Object "{}")) true Sample.stale_client
       = Some ({| Client.csrfToken := Some "fresh"%string;
                  Client.calls :=
                    Client.calls Sample.stale_client
                    ++ [ Client.request_call "PATCH" "/api/admin/teams/t1/status"
                           (Some (Client.Object "{}")) Sample.stale_client;
                         Client.refresh_call;
                         Client.request_call "PATCH" "/api/admin/teams/t1/status"
                           (Some (Client.Object "{}"))
                           (Client.setCsrfToken (Some "fresh"%string)
                              Sample.stale_client) ] |},
               out).
Proof.
  destruct (apiRequest_retries_at_most_once Sample.strict_server "PATCH"
              "/api/admin/teams/t1/status" (Some (Client.Object "{}")) 0
              Sample.stale_client)
    as (_ & _ & _ & _ & Hpath).
  apply (Hpath (Sample.reply 403 None) (Sample.reply 200 (Some (Some "fresh"%string)))
           (Some "fresh"%string));
    reflexivity.
Defined.

(** The retry at work: a stale token is refused, refreshed and replayed
    with the fresh one; against a server that keeps refusing, the replay's
    403 is the outcome and no third request is made. *)
Example apiRequest_refreshes_stale_token :
  exists st' : Client.ClientState,
    Client.apiRequest 2 Sample.strict_server "PATCH" "/api/admin/teams/t1/status"
      (Some (Client.Object "{}")) true Sample.stale_client
    = Some (st', Client.Resolved (Sample.reply 200 None))
    /\ Client.csrfToken st' = Some "fresh"%string
    /\ map Client.site (Client.calls st')
       = [Client.request_site; Client.csrf_site; Client.request_site].
Proof. eexists. vm_compute. repeat split. Qed.

Example apiRequest_gives_up_after_replay :
  exists st' : Client.ClientState,
    Client.apiRequest 2 Sample.refusing_server "PATCH" "/api/admin/teams/t1/status"
      (Some (Client.Object "{}")) true Sample.stale_client
    = Some (st', Client.Rejected (Client.HttpError "403: Forbidden"))
    /\ map Client.site (Client.calls st')
       = [Client.request_site; Client.csrf_site; Client.request_site].
Proof. eexists. vm_compute. repeat split. Qed.

(** * Further properties of the code *)

(** ** Status requests of any shape, and in a row *)

Lemma parse_cases (req : Request) (w : World) :
  updateTeamStatusSchema_parse req w = (w, Throw ZodError)
  \/ exists d : Decision, updateTeamStatusSchema_parse req w = (w, Ok (d, body_note req)).
Proof.
  unfold updateTeamStatusSchema_parse.
  destruct (decide (body_status req = "VERIFIED"%string)); [right; by exists VERIFY|].
  destruct (decide (body_status req = "REJECTED"%string)); [right; by exists REJECT|].
  by left.
Qed.

Lemma patch_status_as_decide (env : Env) (req : Request) (w : World) (d : Decision) :
  updateTeamStatusSchema_parse req w = (w, Ok (d, body_note req)) ->
  patch_status env req w
  = decideTeam env (params_id req) d (body_note req) (session_adminEmail req) w.
Proof.
  intros H. unfold decideTeam, patch_status, patch_status_try.
  by rewrite !bind_run, H, parse_decide_request.
Qed.

Lemma keeps_refl (w : World) : keeps w w.
Proof.
  repeat split; try done. intros id. by destruct (teams w !! id).
Qed.

Lemma keeps_trans (w1 w2 w3 : World) : keeps w1 w2 -> keeps w2 w3 -> keeps w1 w3.
Proof.
  intros (Hm & Hs & Ha & Ho & Hq & Ht) (Hm' & Hs' & Ha' & Ho' & Hq' & Ht').
  repeat split; try congruence; try (etrans; eassumption).
  intros id. specialize (Ht id). specialize (Ht' id).
  destruct (teams w1 !! id), (teams w2 !! id), (teams w3 !! id); try done.
  destruct Ht as [Hr Hst], Ht' as [Hr' Hst']. split; [congruence | auto].
Qed.

(** A rewrite of the row under [id] that keeps what was registered and
    leaves the status decided. *)
Lemma keeps_rewrite (w w' : World) (id : string) (t t' : Team) :
  teams w !! id = Some t ->
  teams w' = <[id := t']> (teams w) ->
  registration t' = registration t ->
  status t' ≠ PENDING ->
  members w' = members w ->
  eventSettings w' = eventSettings w ->
  auditLogs w `prefix_of` auditLogs w' ->
  outbox w `prefix_of` outbox w' ->
  qrRequests w `prefix_of` qrRequests w' ->
  keeps w w'.
Proof.
  intros Ht Hteams Hreg Hst Hm Hs Ha Ho Hq. repeat split; try done.
  intros other. rewrite Hteams. destruct (decide (other = id)) as [->|Hne].
  - by rewrite Ht, lookup_insert_eq.
  - rewrite lookup_insert_ne by done. by destruct (teams w !! other).
Qed.

Lemma decided_not_pending (d : Decision) : decided d ≠ PENDING.
Proof. by destruct d. Qed.

Lemma patch_status_keeps (env : Env) (req : Request) (w : World) :
  keeps w (patch_status env req w).1.
Proof.
  destruct (parse_cases req w) as [Hbad | [d Hok]].
  { unfold patch_status, patch_status_try. rewrite bind_run, Hbad. apply keeps_refl. }
  rewrite (patch_status_as_decide env req w d Hok).
  set (id := params_id req). set (note := body_note req).
  set (actingAdmin := session_adminEmail req).
  destruct (teams w !! id) as [t|] eqn:Ht.
  2:{ rewrite (decide_missing_run env id note actingAdmin w d Ht). apply keeps_refl. }
  destruct d.
  - destruct (qr_service env (qrData id t)) as [url|] eqn:Hqr.
    + rewrite (decide_verify_run env id note actingAdmin w t url Ht Hqr).
      apply (keeps_rewrite _ _ id t
               (apply_set (storage.qrUpdates url) (decidedTeam env note actingAdmin VERIFY t)));
        try done; try (by eexists).
      cbn. apply insert_insert_eq.
    + rewrite (decide_verify_qr_failed_run env id note actingAdmin w t Ht Hqr).
      apply (keeps_rewrite _ _ id t (decidedTeam env note actingAdmin VERIFY t));
        try done; by eexists.
  - rewrite (decide_reject_run env id note actingAdmin w t Ht).
    apply (keeps_rewrite _ _ id t (decidedTeam env note actingAdmin REJECT t));
      try done; by eexists.
Qed.

Lemma serve_keeps (requests : list (Env * Request)) (w : World) :
  keeps w (serve requests w).
Proof.
  revert w. induction requests as [|[env req] requests IH]; intros w.
  - apply keeps_refl.
  - cbn [serve foldl fst snd]. eapply keeps_trans; [apply patch_status_keeps | apply IH].
Qed.

(** X1.  A body whose [status] is neither "VERIFIED" nor "REJECTED"
    ("PENDING" for one) is answered 400 "Invalid input" before the team is
    looked up: nothing is written, asked or sent. *)
Theorem patch_status_invalid_body (env : Env) (req : Request) (w : World) :
  body_status req ≠ "VERIFIED"%string ->
  body_status req ≠ "REJECTED"%string ->
  let r := patch_status env req w in
  code r.2 = 400
  /\ json r.2 = [("error"%string, Json.JString "Invalid input")]
  /\ r.1 = w.
Proof. intros Hv Hr r. subst r. by rewrite parse_rejects_other_status. Qed.

Lemma patch_status_invalid_body_witness :
  (patch_status Sample.env
     {| params_id := "t1"; body_status := "PENDING"; body_note := None;
        session_adminEmail := Sample.admin |} Sample.world).1
  = Sample.world.
Proof.
  apply (patch_status_invalid_body Sample.env
           {| params_id := "t1"; body_status := "PENDING"; body_note := None;
              session_adminEmail := Sample.admin |} Sample.world);
    discriminate.
Defined.

(** X2.  When the QR image cannot be made or uploaded on VERIFY, the caller
    gets a 500 while the team is already VERIFIED, with its verification
    time and its audit entry, but with the QR column untouched and no mail
    posted. *)
Theorem verify_with_qr_down
    (env : Env) (id : string) (note : option string) (actingAdmin : string)
    (w : World) (t : Team) :
  teams w !! id = Some t ->
  qr_service env (qrData id t) = None ->
  let r := decideTeam env id VERIFY note actingAdmin w in
  code r.2 = 500
  /\ outbox r.1 = outbox w
  /\ qrRequests r.1 = qrRequests w ++ [qrData id t]
  /\ auditLogs r.1 = auditLogs w ++ [auditEntry env id note actingAdmin VERIFY]
  /\ exists t' : Team,
       teams r.1 !! id = Some t'
       /\ status t' = VERIFIED
       /\ verifiedAt t' = Some (clock env 1%nat)
       /\ qrCodeUrl t' = qrCodeUrl t.
Proof.
  intros Ht Hqr r. subst r.
  rewrite (decide_verify_qr_failed_run env id note actingAdmin w t Ht Hqr).
  repeat split. eexists. split; [apply committed_lookup|]. by repeat split.
Qed.

(** One request appends at most one audit entry, one QR request and one
    mail. *)
Lemma patch_status_at_most_one (env : Env) (req : Request) (w : World) :
  let w' := (patch_status env req w).1 in
  (length (auditLogs w') <= S (length (auditLogs w)))%nat
  /\ (length (outbox w') <= S (length (outbox w)))%nat
  /\ (length (qrRequests w') <= S (length (qrRequests w)))%nat.
Proof.
  cbv zeta. destruct (parse_cases req w) as [Hbad | [d Hok]].
  { unfold patch_status, patch_status_try. rewrite bind_run, Hbad. cbn. lia. }
  rewrite (patch_status_as_decide env req w d Hok).
  set (id := params_id req). set (note := body_note req).
  set (actingAdmin := session_adminEmail req).
  destruct (teams w !! id) as [t|] eqn:Ht.
  2:{ rewrite (decide_missing_run env id note actingAdmin w d Ht). cbn. lia. }
  destruct d.
  - destruct (qr_service env (qrData id t)) as [url|] eqn:Hqr.
    + rewrite (decide_verify_run env id note actingAdmin w t url Ht Hqr).
      cbn. rewrite !length_app. cbn. lia.
    + rewrite (decide_verify_qr_failed_run env id note actingAdmin w t Ht Hqr).
      cbn. rewrite !length_app. cbn. lia.
  - rewrite (decide_reject_run env id note actingAdmin w t Ht).
    cbn. rewrite !length_app. cbn. lia.
Qed.

(** X3.  Whatever status requests are served, in whatever order and with
    whatever bodies, the handler only appends: the audit log, the outbox
    and the QR requests of before are prefixes of those after, each grown
    by at most one entry per request; the member and settings tables are as
    before, and no team appears or disappears. *)
Theorem serve_only_appends (requests : list (Env * Request)) (w : World) :
  let w' := serve requests w in
  members w' = members w
  /\ eventSettings w' = eventSettings w
  /\ dom (teams w') = dom (teams w)
  /\ auditLogs w `prefix_of` auditLogs w'
  /\ outbox w `prefix_of` outbox w'
  /\ qrRequests w `prefix_of` qrRequests w'
  /\ (length (auditLogs w') <= length (auditLogs w) + length requests)%nat
  /\ (length (outbox w') <= length (outbox w) + length requests)%nat.
Proof.
  cbv zeta. destruct (serve_keeps requests w) as (Hm & Hs & Ha & Ho & Hq & Ht).
  do 2 (split; [done|]). split.
  { apply set_eq. intros id. rewrite !elem_of_dom. specialize (Ht id).
    destruct (teams w !! id), (teams (serve requests w) !! id); try done.
    all: split; eauto. }
  do 3 (split; [done|]).
  clear. revert w. induction requests as [|[env req] requests IH]; intros w.
  - cbn. lia.
  - cbn [serve foldl fst snd length].
    destruct (patch_status_at_most_one env req w) as (Ha & Ho & _).
    specialize (IH (patch_status env req w).1). unfold serve in IH. lia.
Qed.

(** X4.  Across any status requests a team keeps what it registered (name,
    category, project, college, mentor, contacts, member count, payment
    proof, document and creation time), and a team that has been decided
    never shows PENDING again. *)
Theorem serve_keeps_registration
    (requests : list (Env * Request)) (w : World) (id : string) (t : Team) :
  teams w !! id = Some t ->
  exists t' : Team,
    teams (serve requests w) !! id = Some t'
    /\ registration t' = registration t
    /\ (status t ≠ PENDING -> status t' ≠ PENDING).
Proof.
  intros Ht. destruct (serve_keeps requests w) as (_ & _ & _ & _ & _ & Hteams).
  specialize (Hteams id). rewrite Ht in Hteams.
  destruct (teams (serve requests w) !! id) as [t'|]; [by exists t' | done].
Qed.

Lemma serve_keeps_registration_witness :
  exists t' : Team,
    teams (serve [ (Sample.env, decide_request "t1" VERIFY None Sample.admin);
                   (Sample.env_brevo_down, decide_request "t1" REJECT None Sample.admin) ]
             Sample.world) !! "t1"%string = Some t'
    /\ registration t' = registration Sample.alpha.
Proof.
  destruct (serve_keeps_registration
              [ (Sample.env, decide_request "t1" VERIFY None Sample.admin);
                (Sample.env_brevo_down, decide_request "t1" REJECT None Sample.admin) ]
              Sample.world "t1" Sample.alpha eq_refl)
    as (t' & Hlook & Hreg & _).
  by exists t'.
Defined.

(** X5.  The mail of a verification carries the organizers' note, as the
    mail of a rejection does, and greets the team by its name. *)
Theorem verify_mail_shows_note
    (env : Env) (id note actingAdmin : string) (w : World) (t : Team) (url : string) :
  teams w !! id = Some t ->
  qr_service env (qrData id t) = Some url ->
  exists mail : Email,
    outbox (decideTeam env id VERIFY (Some note) actingAdmin w).1 = outbox w ++ [mail]
    /\ occurs_in note (htmlContent mail)
    /\ occurs_in ("<p>Dear Team " +:+ teamName t +:+ ",</p>") (htmlContent mail).
Proof.
  intros Ht Hqr.
  rewrite (decide_verify_run env id (Some note) actingAdmin w t url Ht Hqr).
  eexists. split; [reflexivity|]. split; [apply acceptanceHtml_shows_note|].
  cbn [htmlContent acceptanceEmail]. unfold acceptanceHtml.
  eapply occurs_in_template; [right; left; reflexivity | apply occurs_in_self].
Qed.

Lemma verify_mail_shows_note_witness :
  exists mail : Email,
    outbox (decideTeam Sample.env "t1" VERIFY (Some "Bring a laptop"%string) Sample.admin
              Sample.world).1 = [mail]
    /\ occurs_in "Bring a laptop" (htmlContent mail).
Proof.
  destruct (verify_mail_shows_note Sample.env "t1" "Bring a laptop" Sample.admin
              Sample.world Sample.alpha "https://cdn.example/qr-codes/1.png"
              eq_refl eq_refl)
    as (mail & Hout & Hnote & _).
  by exists mail.
Defined.

Lemma verify_with_qr_down_witness :
  let down :=
    {| clock := clock Sample.env;
       db_clock := db_clock Sample.env;
       qr_service := fun _ => None;
       brevo_ok := brevo_ok Sample.env;
       createEvent := createEvent Sample.env;
       base64 := base64 Sample.env |} in
  let r := decideTeam down "t1" VERIFY None Sample.admin Sample.world in
  code r.2 = 500 /\ outbox r.1 = [].
Proof.
  destruct (verify_with_qr_down
              {| clock := clock Sample.env;
                 db_clock := db_clock Sample.env;
                 qr_service := fun _ => None;
                 brevo_ok := brevo_ok Sample.env;
                 createEvent := createEvent Sample.env;
                 base64 := base64 Sample.env |}
              "t1" None Sample.admin Sample.world Sample.alpha eq_refl eq_refl)
    as (Hcode & Hout & _).
  split; [exact Hcode | exact Hout].
Defined.

(** ** The event settings *)

Section SettingsFacts.

Import Settings.

Implicit Types (table : list EventSetting) (k v : string).

Lemma getSetting_cons (k : string) (row : EventSetting) (table : list EventSetting) :
  getSetting k (row :: table) = if decide (key row = k) then Some row else getSetting k table.
Proof.
  unfold getSetting. rewrite filter_cons. by destruct (decide (key row = k)).
Qed.

Lemma getSetting_key k table (row : EventSetting) :
  getSetting k table = Some row -> key row = k.
Proof.
  induction table as [|r table IH]; [done|].
  rewrite getSetting_cons. destruct (decide (key r = k)); [congruence | done].
Qed.

Lemma getSetting_None k table : getSetting k table = None <-> k ∉ map key table.
Proof.
  induction table as [|r table IH]; [split; [intros _; apply not_elem_of_nil | done]|].
  rewrite getSetting_cons. cbn [map]. rewrite not_elem_of_cons.
  destruct (decide (key r = k)) as [Heq|Hne]; [split; [done | intros [? _]; congruence]|].
  rewrite IH. split; [intros ?; split; [congruence | done] | by intros [_ ?]].
Qed.

Lemma getSetting_snoc k table (row : EventSetting) :
  getSetting k (table ++ [row])
  = match getSetting k table with
    | Some found => Some found
    | None => if decide (key row = k) then Some row else None
    end.
Proof.
  induction table as [|r table IH]; cbn [app].
  - rewrite getSetting_cons. by destruct (decide (key row = k)).
  - rewrite !getSetting_cons. by destruct (decide (key r = k)).
Qed.

Lemma getSetting_map k table (f : EventSetting -> EventSetting) :
  (forall row, key (f row) = key row) ->
  getSetting k (map f table) = f <$> getSetting k table.
Proof.
  intros Hkey. induction table as [|r table IH]; [done|].
  cbn [map]. rewrite !getSetting_cons, Hkey. by destruct (decide (key r = k)).
Qed.

Lemma assign_assign k v v' (m : gmap string string) :
  assign k v (assign k v' m) = assign k v m.
Proof. unfold assign. destruct (decide (k = "__proto__"%string)); [done|]. apply insert_insert_eq. Qed.

Lemma assign_commute k k' v v' (m : gmap string string) :
  k ≠ k' -> assign k v (assign k' v' m) = assign k' v' (assign k v m).
Proof.
  intros Hne. unfold assign.
  destruct (decide (k = "__proto__"%string)), (decide (k' = "__proto__"%string)); try done.
  by apply insert_insert_ne.
Qed.

Lemma settingsMap_snoc table (row : EventSetting) :
  settingsMap (table ++ [row]) = assign (key row) (value row) (settingsMap table).
Proof. unfold settingsMap. by rewrite foldl_app. Qed.

Lemma settingsMap_rewrite k v (now : Z) table :
  settingsMap (map (fun row => if decide (key row = k) then set_value v now row else row)
                 table)
  = if decide (k ∈ map key table) then assign k v (settingsMap table) else settingsMap table.
Proof.
  induction table as [|r table IH] using rev_ind.
  { cbn. rewrite decide_False; [done | apply not_elem_of_nil]. }
  rewrite !map_app. cbn [map]. rewrite !settingsMap_snoc, IH.
  destruct (decide (key r = k)) as [Heq|Hne].
  - cbn [key value set_value]. rewrite Heq.
    rewrite (decide_True (P := k ∈ map key table ++ [k])) by (apply elem_of_app; right; by left).
    destruct (decide (k ∈ map key table)); by rewrite !assign_assign.
  - destruct (decide (k ∈ map key table)) as [Hin|Hout].
    + rewrite decide_True by (apply elem_of_app; by left).
      by apply assign_commute.
    + rewrite decide_False; [done|].
      rewrite elem_of_app, list_elem_of_singleton. intros [?|?]; [done | congruence].
Qed.

(** The served map after an upsert is the map before with the one key
    assigned. *)
Lemma settingsMap_upsert (stamp : Stamp) k v table :
  settingsMap (upsertSetting stamp {| ins_key := k; ins_value := v |} table).1
  = assign k v (settingsMap table).
Proof.
  unfold upsertSetting. cbn [ins_key ins_value].
  destruct (getSetting k table) as [existing|] eqn:Hget; cbn [fst].
  - rewrite settingsMap_rewrite. rewrite decide_True; [done|].
    destruct (decide (k ∈ map key table)) as [|Hout]; [done|].
    apply getSetting_None in Hout. congruence.
  - apply settingsMap_snoc.
Qed.

Lemma settingsMap_hides_proto table : settingsMap table !! "__proto__"%string = None.
Proof.
  induction table as [|r table IH] using rev_ind; [done|].
  rewrite settingsMap_snoc. unfold assign.
  destruct (decide (key r = "__proto__"%string)) as [|Hne]; [done|].
  by rewrite lookup_insert_ne.
Qed.

Lemma upsert_finds_row (stamp : Stamp) k v table :
  exists row : EventSetting,
    getSetting k (upsertSetting stamp {| ins_key := k; ins_value := v |} table).1 = Some row
    /\ key row = k /\ value row = v.
Proof.
  unfold upsertSetting. cbn [ins_key ins_value].
  destruct (getSetting k table) as [existing|] eqn:Hget; cbn [fst].
  - rewrite getSetting_map by (intros row; by destruct (decide (key row = k))).
    rewrite Hget. cbn. eexists. split; [reflexivity|].
    rewrite (decide_True (P := key existing = k)) by by eapply getSetting_key.
    cbn [key value set_value]. split; [by eapply getSetting_key | done].
  - rewrite getSetting_snoc, Hget. cbn [key]. rewrite decide_True by done.
    by eexists.
Qed.

(** X6.  After [upsertSetting({key, value})] a [getSetting] of the key
    finds a row with the value, whether the key was there or not, and a
    [getSetting] of any other key finds what it found before. *)
Theorem upsert_then_get (stamp : Stamp) k v table :
  let table' := (upsertSetting stamp {| ins_key := k; ins_value := v |} table).1 in
  (exists row : EventSetting,
     getSetting k table' = Some row /\ key row = k /\ value row = v)
  /\ forall other : string, other ≠ k -> getSetting other table' = getSetting other table.
Proof.
  cbv zeta. unfold upsertSetting. cbn [ins_key ins_value].
  destruct (getSetting k table) as [existing|] eqn:Hget; cbn [fst].
  - split.
    + rewrite getSetting_map by (intros row; by destruct (decide (key row = k))).
      rewrite Hget. cbn. eexists. split; [reflexivity|].
      rewrite (decide_True (P := key existing = k)) by by eapply getSetting_key.
      cbn [key value set_value]. split; [by eapply getSetting_key | done].
    + intros other Hne.
      rewrite getSetting_map by (intros row; by destruct (decide (key row = k))).
      destruct (getSetting other table) as [row|] eqn:Hother; [|done].
      cbn. apply getSetting_key in Hother. by rewrite decide_False by congruence.
  - split.
    + rewrite getSetting_snoc, Hget. cbn [key]. rewrite decide_True by done.
      by eexists.
    + intros other Hne. rewrite getSetting_snoc. cbn [key].
      rewrite decide_False by done. by destruct (getSetting other table).
Qed.

(** X7.  [upsertSetting] keeps the keys of the table distinct: for a key
    that is there the table keeps its keys, for a key that is not it gains
    that one key; rows are counted without regard to their order. *)
Theorem upsert_keeps_keys_distinct (stamp : Stamp) k v table :
  NoDup (map key table) ->
  let table' := (upsertSetting stamp {| ins_key := k; ins_value := v |} table).1 in
  NoDup (map key table')
  /\ map key table'
     ≡ₚ map key table ++ (if decide (k ∈ map key table) then [] else [k]).
Proof.
  intros Hnodup. cbv zeta. unfold upsertSetting. cbn [ins_key ins_value].
  destruct (getSetting k table) as [existing|] eqn:Hget; cbn [fst].
  - assert (Hkeys : map key (map (fun row => if decide (key row = k)
                                             then set_value v (js_now stamp) row else row)
                               table) = map key table).
    { rewrite map_map. apply map_ext. intros row. by destruct (decide (key row = k)). }
    rewrite Hkeys. split; [done|].
    rewrite decide_True; [by rewrite app_nil_r|].
    destruct (decide (k ∈ map key table)) as [|Hout]; [done|].
    apply getSetting_None in Hout. congruence.
  - apply getSetting_None in Hget. rewrite map_app. cbn [map key].
    rewrite decide_False by done. split; [|done].
    apply NoDup_app. split; [done|]. split; [|apply NoDup_singleton].
    intros x Hx Hk. apply list_elem_of_singleton in Hk. by subst.
Qed.

Lemma upsert_keeps_keys_distinct_witness :
  map key (upsertSetting (Fixtures.stamp 0) {| ins_key := "EVENT_TIME"; ins_value := "10:30" |}
             Fixtures.settings_table).1
  ≡ₚ ["EVENT_DATE"; "EVENT_VENUE"; "EVENT_TIME"]%string.
Proof.
  destruct (upsert_keeps_keys_distinct (Fixtures.stamp 0) "EVENT_TIME" "10:30"
              Fixtures.settings_table)
    as [_ Hkeys].
  - apply (bool_decide_unpack _). vm_compute. exact I.
  - rewrite Hkeys. reflexivity.
Defined.

(** X8.  With distinct keys the map the settings routes answer with agrees
    with [getSetting] on every key but "__proto__": the value of the row
    when there is one, nothing otherwise.  Under "__proto__" the map shows
    nothing, whether or not the table holds a row with that key. *)
Theorem get_settings_agrees_with_getSetting k table :
  NoDup (map key table) ->
  get_settings table !! k
  = if decide (k = "__proto__"%string) then None else value <$> getSetting k table.
Proof.
  unfold get_settings, getAllSettings. intros Hnodup.
  destruct (decide (k = "__proto__"%string)) as [->|Hproto];
    [apply settingsMap_hides_proto|].
  induction table as [|r table IH] using rev_ind; [done|].
  rewrite settingsMap_snoc, getSetting_snoc.
  rewrite map_app in Hnodup. apply NoDup_app in Hnodup as (Hnd & Hfresh & _).
  unfold assign.
  destruct (decide (key r = k)) as [Heq|Hne].
  - rewrite decide_False by congruence. rewrite Heq, lookup_insert_eq.
    destruct (getSetting k table) as [found|] eqn:Hget; [|done].
    exfalso. apply (Hfresh k); [|rewrite <- Heq; by left].
    destruct (decide (k ∈ map key table)) as [|Hout]; [done|].
    apply getSetting_None in Hout. congruence.
  - destruct (decide (key r = "__proto__"%string)).
    + rewrite IH by done. by destruct (getSetting k table).
    + rewrite lookup_insert_ne by done. rewrite IH by done.
      by destruct (getSetting k table).
Qed.

Lemma get_settings_agrees_with_getSetting_witness :
  get_settings Fixtures.settings_table !! "EVENT_VENUE"%string = Some "Hall B"%string.
Proof.
  rewrite (get_settings_agrees_with_getSetting "EVENT_VENUE" Fixtures.settings_table).
  - reflexivity.
  - apply (bool_decide_unpack _). vm_compute. exact I.
Defined.

Lemma post_settings_from_map (n : nat) (stamps : nat -> Stamp)
    (entries : list (string * BodyValue)) table :
  settingsMap (post_settings_from n stamps entries table)
  = overlay entries (settingsMap table).
Proof.
  revert n table. induction entries as [|[k [v|]] entries IH]; intros n table; [done| |].
  - cbn [post_settings_from]. rewrite IH, settingsMap_upsert. reflexivity.
  - cbn [post_settings_from]. by rewrite IH.
Qed.

Lemma overlay_lookup_other (entries : list (string * BodyValue)) (m : gmap string string)
    (k : string) :
  k ∉ map fst entries -> overlay entries m !! k = m !! k.
Proof.
  revert m. induction entries as [|[k' value'] entries IH]; intros m Hout; [done|].
  cbn [map fst] in Hout. apply not_elem_of_cons in Hout as [Hne Hout].
  change (overlay ((k', value') :: entries) m)
    with (overlay entries (match value' with BString v => assign k' v m | BOther => m end)).
  rewrite IH by done. destruct value' as [v|]; [|done].
  unfold assign. destruct (decide (k' = "__proto__"%string)); [done|].
  by rewrite lookup_insert_ne.
Qed.

(** X9.  After [POST /api/admin/settings] the settings routes answer with
    the map of before with the posted entries that are strings assigned
    over it, in the order of [Object.entries].  Entries of another type are skipped; an
    entry keyed "__proto__" is stored as a row but the map never shows it;
    a key that was not posted keeps what the map showed for it. *)
Theorem post_then_get_settings (stamps : nat -> Stamp)
    (entries : list (string * BodyValue)) table :
  get_settings (post_settings stamps entries table) = overlay entries (get_settings table)
  /\ get_settings (post_settings stamps entries table) !! "__proto__"%string = None
  /\ (forall k v : string,
        k ≠ "__proto__"%string ->
        get_settings (post_settings stamps (entries ++ [(k, BString v)]) table) !! k
        = Some v)
  /\ (forall k : string,
        k ∉ map fst entries ->
        get_settings (post_settings stamps entries table) !! k = get_settings table !! k).
Proof.
  unfold get_settings, getAllSettings, post_settings.
  split; [apply post_settings_from_map|].
  split; [apply settingsMap_hides_proto|].
  split.
  - intros k v Hk. rewrite post_settings_from_map. unfold overlay.
    rewrite foldl_app. cbn [foldl snd fst]. unfold assign.
    rewrite decide_False by done. apply lookup_insert_eq.
  - intros k Hout. rewrite post_settings_from_map. by apply overlay_lookup_other.
Qed.

Lemma post_then_get_settings_witness :
  get_settings (post_settings Fixtures.stamp
                  [("__proto__", BString "x"); ("EVENT_TIME", BString "10:30")]%string
                  Fixtures.settings_table) !! "EVENT_TIME"%string = Some "10:30"%string
  /\ get_settings (post_settings Fixtures.stamp
                     [("__proto__", BString "x"); ("EVENT_TIME", BString "10:30")]%string
                     Fixtures.settings_table) !! "__proto__"%string = None
  /\ getSetting "__proto__"
       (post_settings Fixtures.stamp
          [("__proto__", BString "x"); ("EVENT_TIME", BString "10:30")]%string
          Fixtures.settings_table) <> None.
Proof.
  split; [|split].
  - apply (proj1 (proj2 (proj2 (post_then_get_settings Fixtures.stamp
                                  [("__proto__", BString "x")]%string
                                  Fixtures.settings_table)))
             "EVENT_TIME"%string "10:30"%string).
    discriminate.
  - apply (proj1 (proj2 (post_then_get_settings Fixtures.stamp
                           [("__proto__", BString "x"); ("EVENT_TIME", BString "10:30")]%string
                           Fixtures.settings_table))).
  - vm_compute. discriminate.
Defined.

(** X10.  [POST /api/admin/upload-qr] without a file is answered "File is
    required" and an upload that fails is answered with the failure, the
    settings staying as they are.  A file that uploads is answered its
    URL; the settings then hold a row with that URL under PAYMENT_QR_URL,
    the map served shows it there, and every other key of the map is as
    before. *)
Theorem upload_qr_settings (stamp : Stamp) (file : option string)
    (cloudinary : string -> string -> option string) table :
  let r := upload_qr stamp file cloudinary table in
  (file = None -> r = (table, FileRequired))
  /\ (forall buffer : string,
        file = Some buffer ->
        cloudinary buffer "payment-qr"%string = None ->
        r = (table, UploadFailed))
  /\ (forall buffer url : string,
        file = Some buffer ->
        cloudinary buffer "payment-qr"%string = Some url ->
        r.2 = Uploaded url
        /\ (exists row : EventSetting,
              getSetting "PAYMENT_QR_URL" r.1 = Some row /\ value row = url)
        /\ get_settings r.1 = <["PAYMENT_QR_URL"%string := url]> (get_settings table)).
Proof.
  cbv zeta. unfold upload_qr. split; [by intros ->|]. split.
  - intros buffer -> Hup. by rewrite Hup.
  - intros buffer url -> Hup. rewrite Hup. cbn [fst snd]. split; [done|].
    destruct (upsert_finds_row stamp "PAYMENT_QR_URL" url table) as (row & ? & _ & ?).
    split; [by exists row|].
    unfold get_settings, getAllSettings. by rewrite settingsMap_upsert.
Qed.

Lemma upload_qr_settings_witness :
  let r := upload_qr (Fixtures.stamp 0) (Some "png"%string)
             (fun buffer folder => Some ("https://cdn/" +:+ folder +:+ "/qr.png")%string)
             Fixtures.settings_table in
  r.2 = Uploaded "https://cdn/payment-qr/qr.png"
  /\ get_settings r.1 !! "PAYMENT_QR_URL"%string = Some "https://cdn/payment-qr/qr.png"%string
  /\ get_settings r.1 !! "EVENT_VENUE"%string = Some "Hall B"%string.
Proof.
  cbv zeta.
  destruct (proj2 (proj2 (upload_qr_settings (Fixtures.stamp 0) (Some "png"%string)
                            (fun buffer folder => Some ("https://cdn/" +:+ folder +:+ "/qr.png")%string)
                            Fixtures.settings_table))
              "png"%string "https://cdn/payment-qr/qr.png"%string eq_refl eq_refl)
    as (Hanswer & _ & Hmap).
  split; [exact Hanswer|]. rewrite Hmap. split; reflexivity.
Defined.

End SettingsFacts.

(** ** The list of teams and its export *)

Section ExportFacts.

Import CsvExport.

Variable toISOString : Z -> string.

Lemma or_blank_Some (s : string) : or_blank (Some s) = s.
Proof. apply or_else_empty. Qed.

(** Reading the slots [0 .. n-1] of a list, blank where the list has
    ended. *)
Lemma slots_pad_or_cut (l : list string) (n : nat) :
  map (fun i => or_blank (l !! i)) (seq 0 n)
  = take n l ++ replicate (n - length l) EmptyString.
Proof.
  induction n as [|n IH]; [done|].
  rewrite seq_S, map_app, IH. cbn [map plus].
  destruct (l !! n) as [x|] eqn:Hn.
  - pose proof (lookup_lt_Some _ _ _ Hn) as Hlt.
    rewrite (take_S_r _ _ _ Hn), or_blank_Some.
    replace (n - length l)%nat with 0%nat by lia.
    replace (S n - length l)%nat with 0%nat by lia.
    cbn [replicate]. by rewrite !app_nil_r.
  - pose proof (proj1 (lookup_ge_None _ _) Hn) as Hge.
    rewrite !take_ge by lia.
    replace (S n - length l)%nat with (S (n - length l)) by lia.
    rewrite replicate_S_end. by rewrite app_assoc.
Qed.

Lemma team_rows_column (team : TeamWithMembers) (f : Member -> string)
    (col : CsvRow -> string) :
  (forall i, col (csv_row toISOString team i) = or_blank (f <$> tw_members team !! i)) ->
  map col (team_rows toISOString team)
  = take (Z.to_nat (memberCount (tw_team team))) (map f (tw_members team))
    ++ replicate (Z.to_nat (memberCount (tw_team team)) - length (tw_members team))
         EmptyString.
Proof.
  intros Hcol. unfold team_rows. rewrite map_map.
  rewrite <- (length_map f), <- slots_pad_or_cut.
  apply map_ext. intros i. by rewrite Hcol, list_lookup_fmap.
Qed.

Lemma team_rows_ids (team : TeamWithMembers) :
  map col_TeamID (team_rows toISOString team)
  = replicate (Z.to_nat (memberCount (tw_team team))) (tw_id team).
Proof.
  unfold team_rows. rewrite map_map. cbn [col_TeamID csv_row].
  generalize (Z.to_nat (memberCount (tw_team team))) as n. intros n.
  generalize 0%nat as k. induction n as [|n IH]; intros k; [done|].
  cbn. by rewrite IH.
Qed.

Lemma export_rows_column (teams : list TeamWithMembers) (f : Member -> string)
    (col : CsvRow -> string) :
  (forall team i,
     col (csv_row toISOString team i) = or_blank (f <$> tw_members team !! i)) ->
  Forall consistent teams ->
  map col (export_rows toISOString teams)
  = concat (map (fun team => map f (tw_members team)) teams).
Proof.
  intros Hcol Hall. unfold export_rows.
  induction Hall as [|team teams Hteam Hall IH]; [done|].
  cbn [map concat]. rewrite map_app, IH, (team_rows_column team f col (Hcol team)).
  rewrite Hteam, Nat2Z.id, Nat.sub_diag, take_ge by (by rewrite length_map).
  cbn [replicate]. by rewrite app_nil_r.
Qed.

(** X11.  A team is exported on as many rows as its [memberCount] says,
    numbered from 1, none when the count is zero or negative.  The member
    columns are read from the team's member rows slot by slot: members
    beyond the count are left out, and slots beyond the members are
    written with blank member columns. *)
Theorem team_rows_pad_or_cut (team : TeamWithMembers) :
  let n := Z.to_nat (memberCount (tw_team team)) in
  let rows := team_rows toISOString team in
  length rows = n
  /\ map col_TeamID rows = replicate n (tw_id team)
  /\ map col_MemberIndex rows = map (fun i => Z.of_nat i + 1) (seq 0 n)
  /\ map col_MemberName rows
     = take n (map fullName (tw_members team))
       ++ replicate (n - length (tw_members team)) EmptyString
  /\ map col_MemberEmail rows
     = take n (map email (tw_members team))
       ++ replicate (n - length (tw_members team)) EmptyString.
Proof.
  cbv zeta. split; [unfold team_rows; by rewrite length_map, length_seq|].
  split; [apply team_rows_ids|].
  split; [unfold team_rows; by rewrite map_map|].
  split; by apply team_rows_column.
Qed.

(** X12.  When every team's [memberCount] is the number of its member
    rows, the export has one row per member: the member e-mails, names and
    team ids read down the rows are those of the teams' members, team by
    team and in order. *)
Theorem export_lists_every_member (teams : list TeamWithMembers) :
  Forall (fun team => memberCount (tw_team team) = Z.of_nat (length (tw_members team)))
         teams ->
  let rows := export_rows toISOString teams in
  map col_MemberEmail rows = concat (map (fun team => map email (tw_members team)) teams)
  /\ map col_MemberName rows
     = concat (map (fun team => map fullName (tw_members team)) teams)
  /\ map col_TeamID rows
     = concat (map (fun team => replicate (length (tw_members team)) (tw_id team)) teams).
Proof.
  intros Hall. cbv zeta. split; [by apply export_rows_column|].
  split; [by apply export_rows_column|].
  unfold export_rows. induction Hall as [|team teams Hteam Hall IH]; [done|].
  cbn [map concat]. by rewrite map_app, IH, team_rows_ids, Hteam, Nat2Z.id.
Qed.

#[local] Instance newer_first_total : Total newer_first.
Proof. intros a b. unfold newer_first. lia. Qed.

#[local] Instance newer_first_trans : Transitive newer_first.
Proof. intros a b c. unfold newer_first. lia. Qed.

Lemma getAllTeams_ids (w : World) :
  map tw_id (getAllTeams w) ≡ₚ (map_to_list (teams w)).*1.
Proof.
  unfold getAllTeams. rewrite map_map. cbn [tw_id].
  change (map (fun team : string * Team => team.1)) with (fmap (M := list) (@fst string Team)).
  by rewrite merge_sort_Permutation.
Qed.

Lemma elem_of_getAllTeams (w : World) (tw : TeamWithMembers) :
  tw ∈ getAllTeams w
  <-> teams w !! tw_id tw = Some (tw_team tw)
      /\ tw_members tw = filter (fun m => teamId m = tw_id tw) (members w).
Proof.
  unfold getAllTeams. rewrite list_elem_of_fmap. split.
  - intros ([id t] & -> & Hin). rewrite merge_sort_Permutation in Hin.
    by apply elem_of_map_to_list in Hin.
  - intros [Hlook Hmem]. exists (tw_id tw, tw_team tw). split.
    + destruct tw as [id t ms]. cbn in *. by rewrite Hmem.
    + rewrite merge_sort_Permutation. by apply elem_of_map_to_list.
Qed.

(** X13.  [getAllTeams] returns every team of the table exactly once, each
    with the member rows that carry its id, newest first: no team comes
    after one that was created earlier. *)
Theorem getAllTeams_complete (w : World) :
  let all := getAllTeams w in
  NoDup (map tw_id all)
  /\ (forall (id : string) (t : Team),
        teams w !! id = Some t
        <-> exists tw : TeamWithMembers, tw ∈ all /\ tw_id tw = id /\ tw_team tw = t)
  /\ Forall (fun tw => (storage.getMembersByTeamId (tw_id tw) w).2 = Ok (tw_members tw)) all
  /\ StronglySorted (fun a b => createdAt (tw_team b) <= createdAt (tw_team a)) all.
Proof.
  cbv zeta. split.
  { rewrite getAllTeams_ids. apply NoDup_fst_map_to_list. }
  split.
  { intros id t. split.
    - intros Hlook.
      exists {| tw_id := id; tw_team := t;
                tw_members := filter (fun m => teamId m = id) (members w) |}.
      split; [by apply elem_of_getAllTeams | done].
    - intros (tw & Hin & <- & <-). by apply elem_of_getAllTeams in Hin as [? _]. }
  split.
  { apply Forall_forall. intros tw Hin. apply elem_of_getAllTeams in Hin as [_ ->].
    reflexivity. }
  unfold getAllTeams.
  apply (StronglySorted_fmap _ newer_first); [by intros [] []|].
  apply StronglySorted_merge_sort; apply _.
Qed.

(** Member rows sorted out by team: over distinct ids, the rows found team
    by team are the rows whose team is among the ids. *)
Lemma members_by_team (ids : list string) (ms : list Member) :
  NoDup ids ->
  concat (map (fun id => filter (fun m => teamId m = id) ms) ids)
  ≡ₚ filter (fun m => teamId m ∈ ids) ms.
Proof.
  induction 1 as [|id ids Hfresh Hnodup IH]; cbn [map concat].
  { induction ms as [|m ms IHms]; [done|].
    rewrite filter_cons. rewrite decide_False by apply not_elem_of_nil. done. }
  rewrite IH. clear IH.
  induction ms as [|m ms IHms]; [done|].
  rewrite !filter_cons.
  destruct (decide (teamId m = id)) as [Heq|Hne],
           (decide (teamId m ∈ ids)) as [Hin|Hout],
           (decide (teamId m ∈ id :: ids)) as [Hin'|Hout'].
  - exfalso. apply Hfresh. by rewrite <- Heq.
  - exfalso. apply Hfresh. by rewrite <- Heq.
  - cbn [app]. by rewrite IHms.
  - exfalso. apply Hout'. rewrite Heq. by left.
  - rewrite <- Permutation_middle. by rewrite IHms.
  - exfalso. apply Hout'. by right.
  - exfalso. apply elem_of_cons in Hin' as [?|?]; done.
  - done.
Qed.

(** X14.  When every team's [memberCount] is the number of member rows
    that carry its id, the member e-mails in the export are exactly those
    of the member rows whose team exists, each once; rows of members
    without a team are not exported. *)
Theorem export_csv_lists_members_of_teams (w : World) :
  (forall (id : string) (t : Team),
     teams w !! id = Some t ->
     memberCount t = Z.of_nat (length (filter (fun m => teamId m = id) (members w)))) ->
  map col_MemberEmail (export_csv toISOString w)
  ≡ₚ map email (filter (fun m => is_Some (teams w !! teamId m)) (members w)).
Proof.
  intros Hcount. unfold export_csv.
  rewrite (export_rows_column _ email col_MemberEmail); [|done|].
  2:{ apply Forall_forall. intros tw Hin. apply elem_of_getAllTeams in Hin as [Hlook Hmem].
      unfold consistent. rewrite Hmem. by apply Hcount. }
  assert (Hgroups :
    map (fun team => map email (tw_members team)) (getAllTeams w)
    = map (fun id => map email (filter (fun m => teamId m = id) (members w)))
          (map tw_id (getAllTeams w))).
  { rewrite map_map. apply Forall_fmap_ext_1, Forall_forall. intros tw Hin.
    apply elem_of_getAllTeams in Hin as [_ ->]. done. }
  rewrite Hgroups. clear Hgroups.
  assert (Hmap : forall ids : list string,
    concat (map (fun id => map email (filter (fun m => teamId m = id) (members w))) ids)
    = map email (concat (map (fun id => filter (fun m => teamId m = id) (members w)) ids))).
  { intros ids. induction ids as [|id ids IH]; [done|].
    cbn [map concat]. by rewrite map_app, IH. }
  rewrite Hmap. apply Permutation_map.
  rewrite members_by_team.
  2:{ rewrite getAllTeams_ids. apply NoDup_fst_map_to_list. }
  erewrite (list_filter_iff _ (fun m => is_Some (teams w !! teamId m))); [done|].
  intros m. rewrite getAllTeams_ids, list_elem_of_fmap. split.
  - intros ([id t] & -> & Hin). apply elem_of_map_to_list in Hin. by eexists.
  - intros [t Ht]. exists (teamId m, t). split; [done | by apply elem_of_map_to_list].
Qed.

End ExportFacts.

Lemma export_lists_every_member_witness :
  map CsvExport.col_MemberEmail (CsvExport.export_csv pretty Sample.world)
  = ["asha@alpha.example"; "ben@alpha.example"; "chen@alpha.example"]%string.
Proof.
  unfold CsvExport.export_csv.
  destruct (export_lists_every_member pretty (CsvExport.getAllTeams Sample.world))
    as (Hmail & _).
  - vm_compute. repeat constructor.
  - rewrite Hmail. reflexivity.
Defined.

Lemma export_csv_lists_members_of_teams_witness :
  map CsvExport.col_MemberEmail (CsvExport.export_csv pretty Sample.world)
  ≡ₚ ["asha@alpha.example"; "ben@alpha.example"; "chen@alpha.example"]%string.
Proof.
  rewrite (export_csv_lists_members_of_teams pretty Sample.world); [reflexivity|].
  intros id t Ht. destruct (decide (id = "t1"%string)) as [->|Hne].
  - cbn in Ht. rewrite lookup_singleton_eq in Ht. injection Ht as <-. reflexivity.
  - cbn in Ht. by rewrite lookup_singleton_ne in Ht.
Defined.

(** ** More on the client's requests *)

Section ClientFacts.

Import Client.

Variable net : Network.

Lemma settle_outcome (res : FetchResponse) (st : ClientState) :
  settle res st
  = (st, if ok res then Resolved res
         else Rejected (HttpError (pretty (res_status res) +:+ ": "
                                   +:+ or_else (text res) (statusText res)))).
Proof. unfold settle, throwIfResNotOk. by destruct (ok res). Qed.


(** X16.  A GET is sent once, without the CSRF token, and never refreshed
    or replayed, whatever the answer; the module's token is left as it is. *)
Theorem apiRequest_get_once (extra : nat) (url : string) (data : option Data)
    (retryOn403 : bool) (st : ClientState) :
  exists (out : Outcome) (call : FetchCall),
    apiRequest (S extra) net "GET" url data retryOn403 st
    = Some ({| csrfToken := csrfToken st; calls := calls st ++ [call] |}, out)
    /\ call = request_call "GET" url data st
    /\ site call = request_site
    /\ (forall token : string, ("X-CSRF-Token"%string, token) ∉ headers call).
Proof.
  cbn [apiRequest]. unfold apiRequest_body, fetch.
  assert (Hheaders : forall token : string,
            ("X-CSRF-Token"%string, token) ∉ headers (request_call "GET" url data st)).
  { intros token. cbn [headers request_call]. unfold request_headers.
    change (String.eqb "GET" "GET") with true. cbn [negb].
    destruct data as [[?|?]|], (csrfToken st); rewrite ?andb_false_r; cbn [app];
      rewrite ?not_elem_of_cons; repeat split; try apply not_elem_of_nil; discriminate. }
  destruct (net (calls st) (request_call "GET" url data st)) as [res|].
  - change (String.eqb "GET" "GET") with true. cbn [negb]. rewrite andb_false_r.
    rewrite settle_outcome. by eexists _, _.
  - by eexists _, _.
Qed.

(** X17.  The module's token is only ever replaced by what a refresh that
    succeeded answered: after a first call it is the token of before, or
    the [csrfToken] property of an [ok] answer to the refresh made right
    after the first request. *)
Theorem apiRequest_token_from_refresh (extra : nat) (method url : string)
    (data : option Data) (st st' : ClientState) (out : Outcome) :
  apiRequest (S (S extra)) net method url data true st = Some (st', out) ->
  csrfToken st' = csrfToken st
  \/ exists csrfRes : FetchResponse,
       net (calls st ++ [request_call method url data st]) refresh_call = Some csrfRes
       /\ ok csrfRes = true
       /\ json_csrfToken csrfRes = Some (csrfToken st').
Proof.
  cbn [apiRequest]. unfold apiRequest_body at 1. unfold fetch at 1.
  destruct (net (calls st) (request_call method url data st)) as [res|];
    [|intros [= <- _]; by left].
  destruct ((res_status res =? 403) && true && negb (String.eqb method "GET"));
    [|rewrite settle_outcome; intros [= <- _]; by left].
  unfold fetch at 1. cbn [calls csrfToken].
  destruct (net (calls st ++ [request_call method url data st]) refresh_call)
    as [csrfRes|] eqn:Hrefresh; [|rewrite settle_outcome; intros [= <- _]; by left].
  destruct (ok csrfRes) eqn:Hok; [|rewrite settle_outcome; intros [= <- _]; by left].
  destruct (json_csrfToken csrfRes) as [newToken|] eqn:Htoken;
    [|rewrite settle_outcome; intros [= <- _]; by left].
  intros Hreplay. right. exists csrfRes. repeat split; try done.
  change (apiRequest_body (apiRequest extra net) net method url data false)
    with (apiRequest (S extra) net method url data false) in Hreplay.
  destruct (apiRequest_replay net method url data extra
              (setCsrfToken newToken
                 {| csrfToken := csrfToken st;
                    calls := (calls st ++ [request_call method url data st])
                             ++ [refresh_call] |}))
    as [out' Hrun].
  rewrite Hrun in Hreplay. by injection Hreplay as <- _.
Qed.

End ClientFacts.


Lemma apiRequest_token_from_refresh_witness :
  exists st' : Client.ClientState,
    Client.apiRequest 2 Sample.refusing_server "PATCH" "/api/admin/teams/t1/status"
      (Some (Client.Object "{}")) true Sample.stale_client
    = Some (st', Client.Rejected (Client.HttpError "403: Forbidden"))
    /\ (Client.csrfToken st' = Some "stale"%string
        \/ exists csrfRes : Client.FetchResponse,
             Client.json_csrfToken csrfRes = Some (Client.csrfToken st')).
Proof.
  destruct (Client.apiRequest 2 Sample.refusing_server "PATCH" "/api/admin/teams/t1/status"
              (Some (Client.Object "{}")) true Sample.stale_client)
    as [[st' out]|] eqn:Hrun; [|vm_compute in Hrun; discriminate].
  exists st'. split.
  { vm_compute in Hrun. injection Hrun as <- <-. vm_compute. reflexivity. }
  destruct (apiRequest_token_from_refresh Sample.refusing_server 0 "PATCH"
              "/api/admin/teams/t1/status" (Some (Client.Object "{}")) Sample.stale_client
              st' out Hrun)
    as [Hsame | (csrfRes & _ & _ & Htoken)].
  - by left.
  - right. by exists csrfRes.
Defined.

(** X18 at work: the stale token of the sample client is refused, the
    refresh answers "fresh", and the request is replayed under it. *)
Lemma apiRequest_replays_after_refresh_witness :
  Client.apiRequest 2 Sample.strict_server "PATCH" "/api/admin/teams/t1/status"
    (Some (Client.Object "{}")) true Sample.stale_client
  = Client.apiRequest 1 Sample.strict_server "PATCH" "/api/admin/teams/t1/status"
      (Some (Client.Object "{}")) false
      {| Client.csrfToken := Some "fresh"%string;
         Client.calls :=
           [ Client.request_call "PATCH" "/api/admin/teams/t1/status"
               (Some (Client.Object "{}")) Sample.stale_client;
             Client.refresh_call ] |}.
Proof.
  apply (apiRequest_replays_after_refresh Sample.strict_server "PATCH"
           "/api/admin/teams/t1/status" (Some (Client.Object "{}")) 0 Sample.stale_client
           (Sample.reply 403 None) (Sample.reply 200 (Some (Some "fresh"%string)))
           (Some "fresh"%string));
    reflexivity.
Defined.

(** ** Administrators and sessions *)

Section AuthFacts.

Import Auth.

Lemma getAdminByEmail_cons (e : string) (admin : Admin) (table : list Admin) :
  getAdminByEmail e (admin :: table)
  = if decide (email admin = e) then Some admin else getAdminByEmail e table.
Proof.
  unfold getAdminByEmail. rewrite filter_cons. by destruct (decide (email admin = e)).
Qed.

Lemma getAdminByEmail_email (e : string) (table : list Admin) (admin : Admin) :
  getAdminByEmail e table = Some admin -> email admin = e.
Proof.
  induction table as [|a table IH]; [done|].
  rewrite getAdminByEmail_cons. destruct (decide (email a = e)); [congruence | done].
Qed.

Lemma getAdminByEmail_None (e : string) (table : list Admin) :
  getAdminByEmail e table = None <-> e ∉ map email table.
Proof.
  induction table as [|a table IH]; [split; [intros _; apply not_elem_of_nil | done]|].
  rewrite getAdminByEmail_cons. cbn [map]. rewrite not_elem_of_cons.
  destruct (decide (email a = e)) as [Heq|Hne]; [split; [done | intros [? _]; congruence]|].
  rewrite IH. split; [intros ?; split; [congruence | done] | by intros [_ ?]].
Qed.

Lemma getAdminByEmail_snoc (e : string) (table : list Admin) (admin : Admin) :
  getAdminByEmail e (table ++ [admin])
  = match getAdminByEmail e table with
    | Some found => Some found
    | None => if decide (email admin = e) then Some admin else None
    end.
Proof.
  induction table as [|a table IH]; cbn [app].
  - rewrite getAdminByEmail_cons. by destruct (decide (email admin = e)).
  - rewrite !getAdminByEmail_cons. by destruct (decide (email a = e)).
Qed.

(** X19.  [initializeAdmin] never throws and leaves an administrator
    under the bootstrap e-mail.  An account already there is kept as it is,
    password included; otherwise one row is added at the end.  Running it
    again, at any later start, changes nothing. *)
Theorem initializeAdmin_ensures (bcrypt : Bcrypt) (stamp : Settings.Stamp)
    (table : list Admin) :
  exists table' : list Admin,
    initializeAdmin bcrypt stamp table = Some table'
    /\ table `prefix_of` table'
    /\ (length table' <= S (length table))%nat
    /\ (exists admin : Admin,
          getAdminByEmail adminEmail0 table' = Some admin /\ email admin = adminEmail0)
    /\ (forall admin : Admin,
          getAdminByEmail adminEmail0 table = Some admin -> table' = table)
    /\ forall (bcrypt' : Bcrypt) (stamp' : Settings.Stamp),
         initializeAdmin bcrypt' stamp' table' = Some table'.
Proof.
  unfold initializeAdmin.
  destruct (getAdminByEmail adminEmail0 table) as [admin|] eqn:Hget.
  - exists table. rewrite Hget. repeat split; try done; [lia|].
    exists admin. split; [done | by eapply getAdminByEmail_email].
  - unfold createAdmin. cbn [ins_email ins_password].
    rewrite decide_False by (by apply getAdminByEmail_None).
    eexists. split; [reflexivity|].
    split; [by eexists|]. split; [rewrite length_app; cbn; lia|].
    rewrite getAdminByEmail_snoc, Hget. cbn [email]. rewrite decide_True by done.
    split; [by eexists|]. split; [done|]. intros bcrypt' stamp'. reflexivity.
Qed.

(** X20.  [POST /api/auth/login] answers by three tests in a row.  A body
    that [loginSchema] refuses is answered "Invalid input".  A body it
    accepts is answered "Invalid credentials" when no administrator has
    the e-mail or bcrypt does not match the password against that
    administrator's hash.  Otherwise the login succeeds: the session
    carries that administrator's id and e-mail and the answer the CSRF
    token.  In the first two cases the session is left as it was. *)
Theorem login_needs_matching_password (bcrypt : Bcrypt) (is_email : string -> bool)
    (csrfToken : string) (body : LoginBody) (session : Session) (table : list Admin) :
  let r := login bcrypt is_email csrfToken body session table in
  match r.2 with
  | LoginSuccessful token =>
      token = csrfToken
      /\ loginSchema_parse is_email body = true
      /\ exists admin : Admin,
           getAdminByEmail (b_email body) table = Some admin
           /\ email admin = b_email body
           /\ compare bcrypt (b_password body) (password admin) = true
           /\ r.1 = {| adminId := Some (id admin); adminEmail := Some (b_email body) |}
  | InvalidInput =>
      loginSchema_parse is_email body = false /\ r.1 = session
  | InvalidCredentials =>
      loginSchema_parse is_email body = true
      /\ r.1 = session
      /\ (getAdminByEmail (b_email body) table = None
          \/ exists admin : Admin,
               getAdminByEmail (b_email body) table = Some admin
               /\ compare bcrypt (b_password body) (password admin) = false)
  end.
Proof.
  cbv zeta. unfold login.
  destruct (loginSchema_parse is_email body); [|done].
  destruct (getAdminByEmail (b_email body) table) as [admin|] eqn:Hget;
    [|cbn [fst snd]; auto].
  destruct (compare bcrypt (b_password body) (password admin)) eqn:Hpw.
  - cbn [fst snd]. split; [done|]. split; [done|]. exists admin.
    pose proof (getAdminByEmail_email _ _ _ Hget) as Hemail.
    repeat split; try done. by rewrite Hemail.
  - cbn [fst snd]. repeat split. right. by exists admin.
Qed.

(** X21.  On a table without the bootstrap account, after
    [initializeAdmin] a login with the bootstrap e-mail and password
    succeeds, provided bcrypt matches a password against its own hash;
    the session then passes [requireAuth] and carries the bootstrap
    e-mail, the one a status decision is recorded under. *)
Theorem bootstrap_then_login (bcrypt : Bcrypt) (is_email : string -> bool)
    (csrfToken : string) (stamp : Settings.Stamp) (session : Session)
    (table : list Admin) :
  getAdminByEmail adminEmail0 table = None ->
  (forall p : string, compare bcrypt p (hash bcrypt p) = true) ->
  is_email adminEmail0 = true ->
  truthy (Settings.uuid stamp) = true ->
  exists table' : list Admin,
    initializeAdmin bcrypt stamp table = Some table'
    /\ let r := login bcrypt is_email csrfToken
                  {| b_email := adminEmail0; b_password := adminPassword0 |}
                  session table' in
       r.2 = LoginSuccessful csrfToken
       /\ requireAuth r.1 = true
       /\ adminEmail r.1 = Some adminEmail0.
Proof.
  intros Hget Hbcrypt Hmail Hid. unfold initializeAdmin. rewrite Hget.
  unfold createAdmin. cbn [ins_email ins_password].
  rewrite decide_False by (by apply getAdminByEmail_None).
  eexists. split; [reflexivity|]. cbv zeta. unfold login, loginSchema_parse.
  cbn [b_email b_password]. rewrite Hmail. cbn [andb truthy adminPassword0].
  rewrite getAdminByEmail_snoc, Hget. cbn [email]. rewrite decide_True by done.
  cbn [password]. rewrite Hbcrypt. cbn [fst snd id email]. repeat split.
  unfold requireAuth. cbn [adminId truthy_opt]. exact Hid.
Qed.

End AuthFacts.

Lemma bootstrap_then_login_witness :
  exists table' : list Auth.Admin,
    Auth.initializeAdmin Fixtures.bcrypt (Fixtures.stamp 0) [] = Some table'
    /\ (Auth.login Fixtures.bcrypt (fun _ => true) "token-1"
          {| Auth.b_email := Auth.adminEmail0; Auth.b_password := Auth.adminPassword0 |}
          {| Auth.adminId := None; Auth.adminEmail := None |} table').2
       = Auth.LoginSuccessful "token-1".
Proof.
  destruct (bootstrap_then_login Fixtures.bcrypt (fun _ => true) "token-1"
              (Fixtures.stamp 0) {| Auth.adminId := None; Auth.adminEmail := None |} [])
    as (table' & Hinit & Hlogin & _).
  - reflexivity.
  - intros p. apply String.eqb_refl.
  - reflexivity.
  - reflexivity.
  - by exists table'.
Defined.

(** ** Registration *)

Section RegisterFacts.

Import Register.

Variable renv : RegisterEnv.
Variable req : RegisterRequest.
Variable w : World.

(** A member count that is an integer and passes the schema is 2, 3
    or 4. *)
Lemma whole_between (q : Q) (count : Z) :
  whole q = Some count ->
  Qle_bool (2 # 1)%Q q && Qle_bool q (4 # 1)%Q = true ->
  2 <= count <= 4.
Proof.
  unfold whole, Qle_bool. destruct q as [a d]. cbn [Qnum Qden].
  destruct (Z.eqb_spec (a mod Z.pos d) 0) as [Hmod|]; [|done].
  intros [= <-] Hbounds. apply andb_prop in Hbounds as [Hlo Hhi].
  apply Z.leb_le in Hlo, Hhi.
  pose proof (Z.div_mod a (Z.pos d) ltac:(done)) as Hdiv.
  rewrite Hmod, Z.add_0_r in Hdiv.
  pose proof (Pos2Z.is_pos d). nia.
Qed.

(** The registration up to the insert of the team. *)
Lemma register_run (data : RegistrationInput) (paymentFile : string)
    (otherFiles : list string) (paymentProofUrl : string) (extraDocUrl : option string) :
  body_data req = Some data ->
  registrationSchema_ok (is_email renv) data = true ->
  verifyHCaptcha renv (body_captchaToken req) = true ->
  files_paymentFile req = paymentFile :: otherFiles ->
  uploadToCloudinary renv paymentFile "payment-proofs" = Some paymentProofUrl ->
  extraUpload renv req = Some extraDocUrl ->
  teams w !! gen_random_uuid renv = None ->
  register renv req w
  = match whole (r_memberCount data) with
    | Some count =>
        (registeredWorld renv data count paymentProofUrl extraDocUrl w,
         if brevo_ok (server renv)
              (registrationMail renv data count paymentProofUrl extraDocUrl)
         then Registered (gen_random_uuid renv)
         else RegistrationFailed)
    | None => (w, RegistrationFailed)
    end.
Proof.
  intros Hdata Hvalid Hcaptcha Hfile Hupload Hextra Hfresh.
  unfold register, register_try. rewrite Hdata. step. rewrite Hvalid. step.
  rewrite Hcaptcha. cbn [negb]. rewrite Hfile.
  rewrite bind_run. unfold upload at 1. rewrite Hupload. step.
  rewrite bind_run.
  assert (Hextra_run :
    match files_extraFile req with
    | [] => mret None
    | extraFile :: _ => url ← upload renv extraFile "extra-docs"; mret (Some url)
    end w = (w, Ok extraDocUrl)).
  { unfold extraUpload in Hextra. destruct (files_extraFile req) as [|extraFile ?].
    - by injection Hextra as <-.
    - rewrite bind_run. unfold upload.
      destruct (uploadToCloudinary renv extraFile "extra-docs"); [|done].
      by injection Hextra as <-. }
  rewrite Hextra_run. cbv beta iota zeta.
  rewrite bind_run. unfold createTeam at 1. cbv beta iota zeta.
  destruct (whole (r_memberCount data)) as [count|]; [|done].
  rewrite Hfresh. cbv beta iota zeta.
  cbn [fst snd].
  rewrite bind_run. unfold createMembers at 1. cbv beta iota zeta.
  rewrite bind_run. unfold storage.createAuditLog at 1. cbv beta iota zeta.
  rewrite bind_run. unfold sendEmail, registeredWorld, registrationMail. cbn [default].
  by destruct (brevo_ok (server renv) _).
Qed.

(** X22.  A registration is turned away with a 400 and without any write
    or mail when its data do not pass the schema, when hCaptcha does not
    vouch for the token, or when no payment file came with it, checked in
    that order. *)
Theorem register_turned_away (data : RegistrationInput) :
  body_data req = Some data ->
  registrationSchema_ok (is_email renv) data = false
  \/ verifyHCaptcha renv (body_captchaToken req) = false
  \/ files_paymentFile req = [] ->
  let r := register renv req w in
  r.1 = w
  /\ r.2 = if negb (registrationSchema_ok (is_email renv) data) then ValidationFailed
           else if negb (verifyHCaptcha renv (body_captchaToken req)) then CaptchaFailed
           else PaymentProofRequired.
Proof.
  intros Hdata Hwhy. cbv zeta. unfold register, register_try. rewrite Hdata. step.
  destruct (registrationSchema_ok (is_email renv) data); cbn [negb]; [|done]. step.
  destruct (verifyHCaptcha renv (body_captchaToken req)); cbn [negb]; [|done].
  destruct Hwhy as [?|[?|Hfile]]; [done | done |]. by rewrite Hfile.
Qed.

(** X23.  A registration that passes the schema and the captcha, whose
    files upload and whose new id is free, comes to the insert of the
    team.  A member count that is not an integer, which the schema lets
    through, is refused there: the answer is 500 and nothing is written.
    Otherwise the count is 2, 3 or 4 and the teams are those of before
    with one row more under the new id: the posted registration columns,
    as payment proof and document the uploaded URLs and not what the
    posted data said, PENDING, without note, QR code, verification time or
    verifier, created and updated at the database's time.  Between 2 and 4
    member rows are added under the team's id, one audit entry
    TEAM_REGISTERED by "system" is added, the settings stay, and one mail
    goes to the organizer.  The caller is answered 201 with the id when
    the mail is accepted and 500 when it is not; the rows stay either
    way. *)
Theorem register_creates_pending_team (data : RegistrationInput) (paymentFile : string)
    (otherFiles : list string) (paymentProofUrl0 : string) (extraDocUrl0 : option string) :
  body_data req = Some data ->
  registrationSchema_ok (is_email renv) data = true ->
  verifyHCaptcha renv (body_captchaToken req) = true ->
  files_paymentFile req = paymentFile :: otherFiles ->
  uploadToCloudinary renv paymentFile "payment-proofs" = Some paymentProofUrl0 ->
  extraUpload renv req = Some extraDocUrl0 ->
  teams w !! gen_random_uuid renv = None ->
  let id := gen_random_uuid renv in
  let r := register renv req w in
  match whole (r_memberCount data) with
  | None => r = (w, RegistrationFailed)
  | Some count =>
      2 <= count <= 4
      /\ (exists mail : Email,
            outbox r.1 = outbox w ++ [mail]
            /\ to mail = [organizerEmail]
            /\ r.2 = if brevo_ok (server renv) mail then Registered id
                     else RegistrationFailed)
      /\ teams r.1
         = <[id := {| teamName := r_teamName data;
                      category := r_category data;
                      projectTitle := r_projectTitle data;
                      projectSummary := r_projectSummary data;
                      collegeName := r_collegeName data;
                      mentorName := r_mentorName data;
                      mentorEmail := r_mentorEmail data;
                      contactPhone := r_contactPhone data;
                      contactEmail := r_contactEmail data;
                      memberCount := count;
                      paymentProofUrl := paymentProofUrl0;
                      extraDocUrl := extraDocUrl0;
                      status := PENDING;
                      verificationNote := None;
                      qrCodeUrl := None;
                      verifiedAt := None;
                      verifiedBy := None;
                      createdAt := db_clock (server renv);
                      updatedAt := db_clock (server renv) |}]> (teams w)
      /\ members r.1 ≡ₚ members w ++ map (member_row id) (r_members data)
      /\ (2 <= length (r_members data) <= 4)%nat
      /\ auditLogs r.1
         ≡ₚ auditLogs w ++
            [ {| log_teamId := id;
                 action := "TEAM_REGISTERED";
                 performedBy := "system";
                 details := Some "Team registered via website"%string;
                 log_createdAt := db_clock (server renv) |} ]
      /\ eventSettings r.1 = eventSettings w
  end.
Proof.
  intros Hdata Hvalid Hcaptcha Hfile Hupload Hextra Hfresh id r. subst id r.
  rewrite (register_run data paymentFile otherFiles paymentProofUrl0 extraDocUrl0)
    by done.
  destruct (whole (r_memberCount data)) as [count|] eqn:Hwhole; [|done].
  cbn [fst snd].
  unfold registrationSchema_ok in Hvalid.
  repeat (apply andb_prop in Hvalid as [Hvalid ?]).
  split; [by eapply whole_between|].
  split; [by eexists|].
  split; [done|]. split; [done|]. split; [|done].
  match goal with
  | H : (2 <=? length _)%nat && _ = true |- _ => apply andb_prop in H as [Hlo Hhi]
  end.
  apply Nat.leb_le in Hlo, Hhi. lia.
Qed.

(** X24.  A team registered and then verified, the QR code made, has its
    acceptance mailed to exactly the member addresses that were posted
    with the registration, each as often as it was posted, provided no
    member row carried the new id before. *)
Theorem register_then_verify (data : RegistrationInput) (count : Z) (paymentFile : string)
    (otherFiles : list string) (paymentProofUrl0 : string) (extraDocUrl0 : option string)
    (env : Env) (note : option string) (actingAdmin : string) (qr : string) :
  body_data req = Some data ->
  registrationSchema_ok (is_email renv) data = true ->
  whole (r_memberCount data) = Some count ->
  verifyHCaptcha renv (body_captchaToken req) = true ->
  files_paymentFile req = paymentFile :: otherFiles ->
  uploadToCloudinary renv paymentFile "payment-proofs" = Some paymentProofUrl0 ->
  extraUpload renv req = Some extraDocUrl0 ->
  teams w !! gen_random_uuid renv = None ->
  membersOf (gen_random_uuid renv) w = [] ->
  qr_service env
    (qrData (gen_random_uuid renv) (newTeam renv data count paymentProofUrl0 extraDocUrl0))
  = Some qr ->
  let id := gen_random_uuid renv in
  let w1 := (register renv req w).1 in
  let w2 := (decideTeam env id VERIFY note actingAdmin w1).1 in
  (exists mail : Email,
     outbox w2 = outbox w1 ++ [mail] /\ to mail ≡ₚ map im_email (r_members data))
  /\ status <$> teams w2 !! id = Some VERIFIED.
Proof.
  intros Hdata Hvalid Hwhole Hcaptcha Hfile Hupload Hextra Hfresh Hnone Hqr id w1 w2.
  subst id w1 w2.
  rewrite (register_run data paymentFile otherFiles paymentProofUrl0 extraDocUrl0)
    by done.
  rewrite Hwhole. cbn [fst].
  rewrite (decide_verify_run env (gen_random_uuid renv) note actingAdmin _
             (newTeam renv data count paymentProofUrl0 extraDocUrl0) qr)
    by (done || apply lookup_insert_eq).
  cbn [fst]. split.
  - eexists. split; [reflexivity|]. cbn [to acceptanceEmail].
    unfold membersOf in *. cbn [members registeredWorld].
    rewrite filter_app, Hnone. cbn [app].
    induction (r_members data) as [|m ms IH]; [done|].
    cbn [map]. rewrite filter_cons. cbn [teamId member_row].
    rewrite decide_True by done. cbn [map email member_row]. by rewrite IH.
  - by rewrite verifiedWorld_lookup.
Qed.

End RegisterFacts.

Lemma register_turned_away_witness :
  Register.register Posted.renv
    {| Register.files_paymentFile := [];
       Register.files_extraFile := [];
       Register.body_data := Some Posted.data;
       Register.body_captchaToken := "captcha-token" |} Posted.world
  = (Posted.world, Register.PaymentProofRequired).
Proof.
  destruct (register_turned_away Posted.renv
              {| Register.files_paymentFile := [];
                 Register.files_extraFile := [];
                 Register.body_data := Some Posted.data;
                 Register.body_captchaToken := "captcha-token" |}
              Posted.world Posted.data eq_refl (or_intror (or_intror eq_refl)))
    as [Hworld Hanswer].
  apply injective_projections; [exact Hworld | exact Hanswer].
Defined.

Lemma register_creates_pending_team_witness :
  exists t : Team,
    teams (Register.register Posted.renv Posted.request Posted.world).1 !! "t2"%string
    = Some t
    /\ status t = PENDING
    /\ memberCount t = 2
    /\ paymentProofUrl t = "https://cdn.example/innovate-x/payment-proofs/1.png"%string
    /\ extraDocUrl t = None.
Proof.
  pose proof (register_creates_pending_team Posted.renv Posted.request Posted.world
                Posted.data "payment-bytes" []
                "https://cdn.example/innovate-x/payment-proofs/1.png" None
                eq_refl eq_refl eq_refl eq_refl eq_refl eq_refl eq_refl) as Hrun.
  change (Register.whole (Register.r_memberCount Posted.data)) with (Some 2) in Hrun.
  destruct Hrun as (_ & _ & Hteams & _).
  eexists. split; [rewrite Hteams; apply lookup_insert_eq|]. by cbn.
Defined.

(** Two members and a half pass the schema and are refused by the
    database: the answer is 500 and no row is written. *)
Example register_fractional_count :
  Register.registrationSchema_ok (Register.is_email Posted.renv) Posted.fractional = true
  /\ Register.register Posted.renv
       {| Register.files_paymentFile := ["payment-bytes"%string];
          Register.files_extraFile := [];
          Register.body_data := Some Posted.fractional;
          Register.body_captchaToken := "captcha-token" |} Posted.world
     = (Posted.world, Register.RegistrationFailed).
Proof. split; vm_compute; reflexivity. Qed.

(** The length the schema compares is counted in UTF-16 code units: a
    name of one letter with an accent, two bytes long, is too short. *)
Example min_length_counts_code_units :
  Register.min_length 2 (String "195"%char (String "169"%char EmptyString)) = false
  /\ Register.min_length 2 (String "240"%char (String "159"%char (String "152"%char
                              (String "128"%char EmptyString)))) = true.
Proof. split; reflexivity. Qed.

Lemma register_then_verify_witness :
  exists mail : Email,
    outbox (decideTeam Sample.env "t2" VERIFY None Sample.admin
              (Register.register Posted.renv Posted.request Posted.world).1).1
    = outbox (Register.register Posted.renv Posted.request Posted.world).1 ++ [mail]
    /\ to mail ≡ₚ ["dana@beta.example"; "eli@beta.example"]%string.
Proof.
  destruct (register_then_verify Posted.renv Posted.request Posted.world
              Posted.data 2 "payment-bytes" []
              "https://cdn.example/innovate-x/payment-proofs/1.png" None
              Sample.env None Sample.admin "https://cdn.example/qr-codes/1.png"
              eq_refl eq_refl eq_refl eq_refl eq_refl eq_refl eq_refl eq_refl eq_refl
              eq_refl)
    as ((mail & Hout & Hto) & _).
  by exists mail.
Defined.

(** ** The check-in token tells teams apart *)

Lemma unescape_head_escape_char (c : ascii) (rest : string) :
  unescape_head (Json.escape_char c +:+ rest) = Some (c, rest).
Proof.
  destruct c as [[] [] [] [] [] [] [] []]; reflexivity.
Qed.

Lemma unescape_head_quote (rest : string) : unescape_head (dq +:+ rest) = None.
Proof. reflexivity. Qed.

(** An escaped text followed by the closing quote is read back in one way
    only. *)
Lemma escape_closed_inj (s1 s2 rest1 rest2 : string) :
  Json.escape s1 +:+ dq +:+ rest1 = Json.escape s2 +:+ dq +:+ rest2 ->
  s1 = s2 /\ rest1 = rest2.
Proof.
  revert s2. induction s1 as [|c1 s1 IH]; intros [|c2 s2] H; cbn [Json.escape] in H.
  - rewrite !append_empty_l in H. unfold dq in H.
    rewrite !append_cons, !append_empty_l in H. by injection H as ->.
  - rewrite append_empty_l, append_assoc in H.
    apply (f_equal unescape_head) in H.
    by rewrite unescape_head_quote, unescape_head_escape_char in H.
  - rewrite append_empty_l, append_assoc in H.
    apply (f_equal unescape_head) in H.
    by rewrite unescape_head_quote, unescape_head_escape_char in H.
  - rewrite !append_assoc in H.
    pose proof (f_equal unescape_head H) as Hhead.
    rewrite !unescape_head_escape_char in Hhead. injection Hhead as -> Hrest.
    destruct (IH s2 Hrest) as [-> ->]. done.
Qed.

Lemma quote_inj (s1 s2 rest1 rest2 : string) :
  Json.quote s1 +:+ rest1 = Json.quote s2 +:+ rest2 -> s1 = s2 /\ rest1 = rest2.
Proof.
  unfold Json.quote. rewrite !append_assoc. unfold dq at 1 3.
  rewrite !append_cons, !append_empty_l. intros [= H].
  apply escape_closed_inj. by rewrite <- !append_assoc in *.
Qed.

Lemma qrData_layout (id : string) (t : Team) :
  qrData id t
  = "{" +:+ Json.quote "teamId" +:+ ":" +:+ Json.quote id +:+ ","
    +:+ Json.quote "teamName" +:+ ":" +:+ Json.quote (teamName t) +:+ ","
    +:+ Json.quote "category" +:+ ":" +:+ Json.quote (category_text (category t)) +:+ ","
    +:+ Json.quote "verified" +:+ ":" +:+ "true" +:+ "}".
Proof.
  unfold qrData, Json.stringify, Json.join_members, Json.stringify_member,
    Json.stringify_value. cbn [fst snd].
  by rewrite !append_assoc.
Qed.

Lemma category_text_inj (c1 c2 : Category) :
  category_text c1 = category_text c2 -> c1 = c2.
Proof. by destruct c1, c2. Qed.

(** X25.  The check-in token tells teams apart: two tokens are the same
    text only when they are made for the same team id, the same team name
    and the same category, whatever characters the id and the name hold. *)
Theorem checkin_token_injective (id1 id2 : string) (t1 t2 : Team) :
  qrData id1 t1 = qrData id2 t2 ->
  id1 = id2 /\ teamName t1 = teamName t2 /\ category t1 = category t2.
Proof.
  rewrite !qrData_layout. intros H.
  apply (inj (String.append _)) in H.
  apply quote_inj in H as [_ H].
  apply (inj (String.append _)) in H.
  apply quote_inj in H as [Hid H].
  apply (inj (String.append _)) in H.
  apply quote_inj in H as [_ H].
  apply (inj (String.append _)) in H.
  apply quote_inj in H as [Hname H].
  apply (inj (String.append _)) in H.
  apply quote_inj in H as [_ H].
  apply (inj (String.append _)) in H.
  apply quote_inj in H as [Hcat _].
  repeat split; [done | done | by apply category_text_inj].
Qed.

Lemma checkin_token_injective_witness :
  "t1"%string = "t1"%string
  /\ teamName Sample.alpha = teamName (decidedTeam Sample.env None Sample.admin VERIFY Sample.alpha).
Proof.
  destruct (checkin_token_injective "t1" "t1" Sample.alpha
              (decidedTeam Sample.env None Sample.admin VERIFY Sample.alpha) eq_refl)
    as (Hid & Hname & _).
  split; [exact Hid | exact Hname].
Defined.


(** ** The registration form *)

Section WizardFacts.

Import Wizard.

Lemma act_bounds (currentStep : Z) (a : Action) :
  0 <= currentStep <= 3 -> 0 <= act currentStep a <= 3.
Proof. destruct a as [[]|]; unfold act, steps; lia. Qed.

Lemma foldl_act_bounds (actions : list Action) (currentStep : Z) :
  0 <= currentStep <= 3 ->
  0 <= foldl act currentStep actions <= 3
  /\ foldl act currentStep actions <= currentStep + valid_nexts actions.
Proof.
  revert currentStep. induction actions as [|a actions IH]; intros currentStep Hstep.
  { cbn. unfold valid_nexts. cbn. lia. }
  cbn [foldl]. destruct (IH (act currentStep a) (act_bounds currentStep a Hstep))
    as [Hbounds Hcount].
  split; [done|]. unfold valid_nexts in *. rewrite filter_cons.
  destruct a as [[]|]; cbn [act] in *; unfold steps in *.
  - rewrite decide_True by done. cbn [length]. lia.
  - rewrite decide_False by done. lia.
  - rewrite decide_False by done. lia.
Qed.

(** X26.  However the buttons of the registration form are pressed, the
    current step stays among the four steps, and the form is never further
    along than the number of times a step was found valid: the review step
    is not reached without three valid steps. *)
Theorem wizard_step_bounds (actions : list Action) :
  let currentStep := foldl act 0 actions in
  0 <= currentStep <= steps - 1 /\ currentStep <= valid_nexts actions.
Proof.
  cbv zeta. destruct (foldl_act_bounds actions 0) as [Hbounds Hcount]; [lia|].
  unfold steps. split; lia.
Qed.

(** X27.  For a member count that is not negative, the effect leaves
    exactly that many member rows in the form: the rows already filled in
    are kept in place up to the count, rows beyond it are dropped, and
    blank rows make up the rest; run again, it changes nothing. *)
Theorem syncMembers_fits (current : list Register.InsertMember) (memberCount : Z) :
  0 <= memberCount ->
  let n := Z.to_nat memberCount in
  syncMembers current memberCount
  = take n current ++ replicate (n - length current) blank
  /\ length (syncMembers current memberCount) = n
  /\ syncMembers (syncMembers current memberCount) memberCount
     = syncMembers current memberCount.
Proof.
  intros Hcount. cbv zeta.
  assert (Hsync : forall rows : list Register.InsertMember,
            syncMembers rows memberCount
            = take (Z.to_nat memberCount) rows
              ++ replicate (Z.to_nat memberCount - length rows) blank).
  { intros rows. unfold syncMembers, slice0.
    destruct (Z.of_nat (length rows) <? memberCount) eqn:Hlt.
    - apply Z.ltb_lt in Hlt. rewrite take_ge by lia. f_equal. f_equal. lia.
    - apply Z.ltb_ge in Hlt.
      replace (Z.to_nat memberCount - length rows)%nat with 0%nat by lia.
      cbn [replicate]. rewrite app_nil_r.
      destruct (memberCount <? Z.of_nat (length rows)) eqn:Hgt.
      + by rewrite (proj2 (Z.ltb_ge memberCount 0)) by lia.
      + apply Z.ltb_ge in Hgt. by rewrite take_ge by lia. }
  assert (Hlen : length (syncMembers current memberCount) = Z.to_nat memberCount).
  { rewrite Hsync, length_app, length_take, length_replicate. lia. }
  split; [apply Hsync|]. split; [exact Hlen|].
  rewrite (Hsync (syncMembers current memberCount)), Hlen, Nat.sub_diag.
  cbn [replicate]. rewrite app_nil_r. apply take_ge. lia.
Qed.

End WizardFacts.

Lemma syncMembers_fits_witness :
  Wizard.syncMembers [Posted.member "dana"] 3
  = [Posted.member "dana"; Wizard.blank; Wizard.blank]
  /\ Wizard.syncMembers [Posted.member "dana"; Posted.member "eli"; Posted.member "fay"] 2
     = [Posted.member "dana"; Posted.member "eli"].
Proof.
  split.
  - destruct (syncMembers_fits [Posted.member "dana"] 3) as [Hsync _]; [lia|].
    rewrite Hsync. reflexivity.
  - destruct (syncMembers_fits
                [Posted.member "dana"; Posted.member "eli"; Posted.member "fay"] 2)
      as [Hsync _]; [lia|].
    rewrite Hsync. reflexivity.
Defined.
